(** * ImHex task manager: a model of lib/libimhex/source/api/task_manager.cpp

    The file follows the C++ source top-down: the callbacks handed to the
    manager, the [Task] record with its member functions, the body of a
    worker iteration, then the process-wide state of the manager (registry,
    work queue, the two callback lists and the mutexes) with the
    [TaskHolder] and [TaskManager] functions acting on it. *)

From stdpp Require Import gmap strings list.

Open Scope Z_scope.

(** ** Fixed-width integers

    [u64] and [u32] values are integers; arithmetic on them wraps. *)

Definition to_u64 (z : Z) : Z := z mod 2 ^ 64.
Definition to_u32 (z : Z) : Z := z mod 2 ^ 32.

(** ** Callbacks

    A [std::function<void()>] given to [doLater] or [runWhenTasksFinished].
    What such a closure can do to the manager is call back into it, so a
    callback is an identifier (to tell invocations apart) and the list of
    calls its body makes, in order. *)

Inductive callback : Type :=
| Callback (id : nat) (body : list action)
with action : Type :=
| CallDoLater (c : callback)
| CallRunWhenTasksFinished (c : callback).

Definition cb_id (c : callback) : nat :=
  match c with Callback id _ => id end.

Definition cb_body (c : callback) : list action :=
  match c with Callback _ body => body end.

(** The interrupt callback of a task is kept opaque: a handle.  Where the
    source has a [std::function<void()>] for it, the model has an
    [option hook]: [None] is the empty function, which [Task::interrupt]
    does not call. *)
Definition hook : Type := nat.

(** ** Exceptions leaving a work function *)

Inductive exn : Type :=
| TaskInterruptor
| StdException (what : string)
| UnknownException.

Inductive res (A : Type) : Type :=
| Ok (a : A)
| Raise (e : exn).
Arguments Ok {A} a.
Arguments Raise {A} e.

(** ** Work functions

    [std::function<void(Task &)>]: the calls the function makes on the task
    it is given, in order, and the ordinary exceptions it may throw.
    [WInterrupt] stands for [Task::interrupt] reaching the task while the
    function runs, from the function itself or from another thread between
    two of its steps.  [TaskInterruptor] is private to [Task]; a work
    function has no constructor for it. *)

Inductive work_op : Type :=
| WUpdate (value : Z)
| WSetMaxValue (value : Z)
| WSetInterruptCallback (callback : option hook)
| WInterrupt
| WClearException
| WThrow (what : string)
| WThrowUnknown.

(** ** Task *)

Record Task : Type := mkTask {
  m_unlocalizedName : string;
  m_currValue : Z;
  m_maxValue : Z;
  m_interruptCallback : option hook;
  m_function : list work_op;
  m_shouldInterrupt : bool;
  m_background : bool;
  m_interrupted : bool;
  m_finished : bool;
  m_hadException : bool;
  m_exceptionMessage : string
}.

Definition set_currValue (v : Z) (t : Task) : Task :=
  mkTask (m_unlocalizedName t) v (m_maxValue t) (m_interruptCallback t)
    (m_function t) (m_shouldInterrupt t) (m_background t) (m_interrupted t)
    (m_finished t) (m_hadException t) (m_exceptionMessage t).

Definition set_maxValue (v : Z) (t : Task) : Task :=
  mkTask (m_unlocalizedName t) (m_currValue t) v (m_interruptCallback t)
    (m_function t) (m_shouldInterrupt t) (m_background t) (m_interrupted t)
    (m_finished t) (m_hadException t) (m_exceptionMessage t).

Definition set_interruptCallback (c : option hook) (t : Task) : Task :=
  mkTask (m_unlocalizedName t) (m_currValue t) (m_maxValue t) c
    (m_function t) (m_shouldInterrupt t) (m_background t) (m_interrupted t)
    (m_finished t) (m_hadException t) (m_exceptionMessage t).

Definition set_shouldInterrupt (b : bool) (t : Task) : Task :=
  mkTask (m_unlocalizedName t) (m_currValue t) (m_maxValue t)
    (m_interruptCallback t) (m_function t) b (m_background t)
    (m_interrupted t) (m_finished t) (m_hadException t)
    (m_exceptionMessage t).

Definition set_interrupted (b : bool) (t : Task) : Task :=
  mkTask (m_unlocalizedName t) (m_currValue t) (m_maxValue t)
    (m_interruptCallback t) (m_function t) (m_shouldInterrupt t)
    (m_background t) b (m_finished t) (m_hadException t)
    (m_exceptionMessage t).

Definition set_finished (b : bool) (t : Task) : Task :=
  mkTask (m_unlocalizedName t) (m_currValue t) (m_maxValue t)
    (m_interruptCallback t) (m_function t) (m_shouldInterrupt t)
    (m_background t) (m_interrupted t) b (m_hadException t)
    (m_exceptionMessage t).

Definition set_hadException (b : bool) (t : Task) : Task :=
  mkTask (m_unlocalizedName t) (m_currValue t) (m_maxValue t)
    (m_interruptCallback t) (m_function t) (m_shouldInterrupt t)
    (m_background t) (m_interrupted t) (m_finished t) b
    (m_exceptionMessage t).

Definition set_exceptionMessage (s : string) (t : Task) : Task :=
  mkTask (m_unlocalizedName t) (m_currValue t) (m_maxValue t)
    (m_interruptCallback t) (m_function t) (m_shouldInterrupt t)
    (m_background t) (m_interrupted t) (m_finished t) (m_hadException t) s.

Module Task.

(** Modelled from the spec: the default member initialisers of the class
    declaration (task_manager.hpp, not among the sources at hand); the
    progress counter starts at 0, the status flags start false, the
    message and the interrupt callback start empty.

    [Task::Task(unlocalizedName, maxValue, background, function)]
    initialises the four members named after its parameters; the others
    keep those defaults. *)
Definition new (unlocalizedName : string) (maxValue : Z) (background : bool)
    (function : list work_op) : Task :=
  {| m_unlocalizedName := unlocalizedName;
     m_currValue := 0;
     m_maxValue := maxValue;
     m_interruptCallback := None;
     m_function := function;
     m_shouldInterrupt := false;
     m_background := background;
     m_interrupted := false;
     m_finished := false;
     m_hadException := false;
     m_exceptionMessage := EmptyString |}.

(** [Task::update]: the store comes first, the throw second. *)
Definition update (value : Z) (t : Task) : Task * res unit :=
  let t := set_currValue value t in
  if m_shouldInterrupt t then (t, Raise TaskInterruptor) else (t, Ok tt).

Definition setMaxValue (value : Z) (t : Task) : Task :=
  set_maxValue value t.

(** [Task::interrupt]: sets the flag and calls the interrupt callback if
    one is set; the second component is the callback that gets called. *)
Definition interrupt (t : Task) : Task * option hook :=
  let t := set_shouldInterrupt true t in
  (t, m_interruptCallback t).

Definition setInterruptCallback (callback : option hook) (t : Task) : Task :=
  set_interruptCallback callback t.

Definition isBackgroundTask (t : Task) : bool := m_background t.
Definition isFinished (t : Task) : bool := m_finished t.
Definition hadException (t : Task) : bool := m_hadException t.
Definition shouldInterrupt (t : Task) : bool := m_shouldInterrupt t.
Definition wasInterrupted (t : Task) : bool := m_interrupted t.

Definition clearException (t : Task) : Task := set_hadException false t.

Definition getExceptionMessage (t : Task) : string := m_exceptionMessage t.
Definition getValue (t : Task) : Z := m_currValue t.
Definition getMaxValue (t : Task) : Z := m_maxValue t.

Definition finish (t : Task) : Task := set_finished true t.
Definition interruption (t : Task) : Task := set_interrupted true t.

Definition exception (message : string) (t : Task) : Task :=
  set_hadException true (set_exceptionMessage message t).

(** [Task::~Task]: a task destroyed before it has finished is interrupted
    first; the result is the interrupt callback that call invokes, if
    any. *)
Definition destroy (t : Task) : option hook :=
  if isFinished t then None else snd (interrupt t).

End Task.

(** ** One worker iteration on a task

    [step] is one step of the work function, [run] the whole function: the
    states the task goes through, the state it is left in and how the
    function was left. *)

Definition step (op : work_op) (t : Task) : Task * res unit :=
  match op with
  | WUpdate value => Task.update value t
  | WSetMaxValue value => (Task.setMaxValue value t, Ok tt)
  | WSetInterruptCallback c => (Task.setInterruptCallback c t, Ok tt)
  | WInterrupt => (fst (Task.interrupt t), Ok tt)
  | WClearException => (Task.clearException t, Ok tt)
  | WThrow what => (t, Raise (StdException what))
  | WThrowUnknown => (t, Raise UnknownException)
  end.

Fixpoint run (ops : list work_op) (t : Task) : list Task * Task * res unit :=
  match ops with
  | [] => ([], t, Ok tt)
  | op :: ops' =>
      match step op t with
      | (t', Ok _) =>
          let '(seen, t'', r) := run ops' t' in (t' :: seen, t'', r)
      | (t', Raise e) => ([t'], t', Raise e)
      end
  end.

(** The [catch] clauses of the worker loop. *)
Definition classify (r : res unit) (t : Task) : Task :=
  match r with
  | Ok _ => t
  | Raise TaskInterruptor => Task.interruption t
  | Raise (StdException what) => Task.exception what t
  | Raise UnknownException => Task.exception "Unknown Exception"%string t
  end.

(** The [try] block, its handlers and [task->finish()]: every state of the
    task an observer can see from the moment the worker starts on it, in
    order. *)
Definition execute (t : Task) : list Task :=
  let '(seen, t1, r) := run (m_function t) t in
  let t2 := classify r t1 in
  t :: seen ++ [t2; Task.finish t2].

Definition executed (t : Task) : Task :=
  let '(_, t1, r) := run (m_function t) t in
  Task.finish (classify r t1).

(** ** The state of the manager

    The anonymous namespace of the source: the registry [s_tasks], the work
    queue [s_taskQueue], the two callback lists and the three mutexes.
    Both task lists hold [std::shared_ptr<Task>]: an entry is the address
    of a task object in [heap], so the registry, the queue and the holders
    all see one object.  [held] lists the mutexes that are locked, the
    latest first; [invoked] records the identifier of every callback the
    manager has invoked, in order. *)

Inductive mutex : Type :=
| s_deferredCallsMutex
| s_tasksFinishedMutex
| s_queueMutex.

#[global] Instance mutex_eq_dec : EqDecision mutex.
Proof. solve_decision. Defined.

Record State : Type := mkState {
  heap : gmap nat Task;
  s_tasks : list nat;
  s_taskQueue : list nat;
  s_deferredCalls : list callback;
  s_tasksFinishedCallbacks : list callback;
  held : list mutex;
  invoked : list nat
}.

Definition set_heap (h : gmap nat Task) (st : State) : State :=
  mkState h (s_tasks st) (s_taskQueue st) (s_deferredCalls st)
    (s_tasksFinishedCallbacks st) (held st) (invoked st).

Definition set_tasks (l : list nat) (st : State) : State :=
  mkState (heap st) l (s_taskQueue st) (s_deferredCalls st)
    (s_tasksFinishedCallbacks st) (held st) (invoked st).

Definition set_taskQueue (l : list nat) (st : State) : State :=
  mkState (heap st) (s_tasks st) l (s_deferredCalls st)
    (s_tasksFinishedCallbacks st) (held st) (invoked st).

Definition set_deferredCalls (l : list callback) (st : State) : State :=
  mkState (heap st) (s_tasks st) (s_taskQueue st) l
    (s_tasksFinishedCallbacks st) (held st) (invoked st).

Definition set_tasksFinishedCallbacks (l : list callback) (st : State)
    : State :=
  mkState (heap st) (s_tasks st) (s_taskQueue st) (s_deferredCalls st) l
    (held st) (invoked st).

Definition set_held (l : list mutex) (st : State) : State :=
  mkState (heap st) (s_tasks st) (s_taskQueue st) (s_deferredCalls st)
    (s_tasksFinishedCallbacks st) l (invoked st).

Definition set_invoked (l : list nat) (st : State) : State :=
  mkState (heap st) (s_tasks st) (s_taskQueue st) (s_deferredCalls st)
    (s_tasksFinishedCallbacks st) (held st) l.

(** How a manager function ends.  [std::mutex] is not recursive: a thread
    that locks a mutex it already owns has undefined behaviour and, on the
    usual implementations, blocks for ever; the function then ends in
    [Deadlock], with the state reached so far.  [OutOfFuel] belongs to the
    model only: the loops over a list that can grow take a step bound. *)

Inductive outcome (A : Type) : Type :=
| Done (a : A) (st : State)
| Deadlock (st : State)
| OutOfFuel.
Arguments Done {A} a st.
Arguments Deadlock {A} st.
Arguments OutOfFuel {A}.

Definition bind {A B : Type} (m : State -> outcome A)
    (k : A -> State -> outcome B) (st : State) : outcome B :=
  match m st with
  | Done a st' => k a st'
  | Deadlock st' => Deadlock st'
  | OutOfFuel => OutOfFuel
  end.

Definition ret {A : Type} (a : A) (st : State) : outcome A := Done a st.

Declare Scope manager_scope.
Delimit Scope manager_scope with manager.
Notation "'let!' x := m 'in' k" := (bind m (fun x => k))
  (at level 10, x name, m at level 100, k at level 200) : manager_scope.
Open Scope manager_scope.

(** The state an outcome carries, if any. *)
Definition state_of {A : Type} (o : outcome A) : option State :=
  match o with
  | Done _ st => Some st
  | Deadlock st => Some st
  | OutOfFuel => None
  end.

(** [std::scoped_lock lock(m)] around a block. *)
Definition scoped_lock {A : Type} (m : mutex) (block : State -> outcome A)
    (st : State) : outcome A :=
  if bool_decide (m ∈ held st) then Deadlock st
  else
    match block (set_held (m :: held st) st) with
    | Done a st' => Done a (set_held (tail (held st')) st')
    | Deadlock st' => Deadlock st'
    | OutOfFuel => OutOfFuel
    end.

(** ** TaskHolder

    A holder keeps a [std::weak_ptr<Task>].  [lock] yields the task while
    some [shared_ptr] still owns it, that is while its address is in the
    registry or in the work queue, and nothing afterwards. *)

Record TaskHolder : Type := mkTaskHolder { m_task : nat }.

Module TaskHolder.

Definition lock (st : State) (h : TaskHolder) : option Task :=
  if bool_decide (m_task h ∈ s_tasks st ++ s_taskQueue st)
  then heap st !! m_task h
  else None.

Definition isRunning (st : State) (h : TaskHolder) : bool :=
  match lock st h with
  | None => false
  | Some task => negb (Task.isFinished task)
  end.

Definition hadException (st : State) (h : TaskHolder) : bool :=
  match lock st h with
  | None => false
  | Some task => negb (Task.hadException task)
  end.

Definition shouldInterrupt (st : State) (h : TaskHolder) : bool :=
  match lock st h with
  | None => false
  | Some task => negb (Task.shouldInterrupt task)
  end.

Definition wasInterrupted (st : State) (h : TaskHolder) : bool :=
  match lock st h with
  | None => false
  | Some task => negb (Task.wasInterrupted task)
  end.

(** [TaskHolder::interrupt]: nothing for a dead holder; otherwise
    [Task::interrupt] on the referent.  The second component is the
    interrupt callback that call invokes, if any. *)
Definition interrupt (st : State) (h : TaskHolder) : State * option hook :=
  match lock st h with
  | None => (st, None)
  | Some task =>
      (set_heap (<[m_task h := fst (Task.interrupt task)]> (heap st)) st,
       snd (Task.interrupt task))
  end.

(** [return false] converts to the [u32] 0; the product is a [u64]
    product and the quotient is narrowed to [u32]. *)
Definition getProgress (st : State) (h : TaskHolder) : Z :=
  match lock st h with
  | None => 0
  | Some task =>
      if Task.getMaxValue task =? 0 then 0
      else to_u32 (to_u64 (Task.getValue task * 100)
                   / Task.getMaxValue task)
  end.

End TaskHolder.

(** ** TaskManager *)

Module TaskManager.

(** The task behind a registry entry satisfies [p]. *)
Definition holds (st : State) (p : Task -> bool) (a : nat) : bool :=
  match heap st !! a with
  | Some task => p task
  | None => false
  end.

Definition createTask (name : string) (maxValue : Z) (background : bool)
    (function : list work_op) : State -> outcome TaskHolder :=
  scoped_lock s_queueMutex (fun st =>
    let a := fresh (dom (heap st)) in
    let task := Task.new name maxValue background function in
    let st := set_heap (<[a := task]> (heap st)) st in
    let st := set_tasks (s_tasks st ++ [a]) st in
    let st := set_taskQueue (s_taskQueue st ++ [a]) st in
    ret (mkTaskHolder a) st).

Definition createBackgroundTask (name : string) (function : list work_op)
    : State -> outcome TaskHolder :=
  createTask name 0 true function.

(** One round of the worker loop: take the task at the front of the
    queue, run it, record how it ended, mark it finished.  With an empty
    queue the worker stays parked on the condition variable. *)
Definition worker_iteration : State -> outcome unit :=
  let! next := scoped_lock s_queueMutex (fun st =>
                 match s_taskQueue st with
                 | [] => ret None st
                 | a :: queue => ret (Some a) (set_taskQueue queue st)
                 end) in
  fun st =>
    match next with
    | None => ret tt st
    | Some a =>
        match heap st !! a with
        | Some task =>
            ret tt (set_heap (<[a := executed task]> (heap st)) st)
        | None => ret tt st
        end
    end.

Definition doLater (function : callback) : State -> outcome unit :=
  scoped_lock s_deferredCallsMutex (fun st =>
    ret tt (set_deferredCalls (s_deferredCalls st ++ [function]) st)).

Definition runWhenTasksFinished (function : callback)
    : State -> outcome unit :=
  scoped_lock s_tasksFinishedMutex (fun st =>
    ret tt (set_tasksFinishedCallbacks
              (s_tasksFinishedCallbacks st ++ [function]) st)).

(** Invoking a callback: the invocation is recorded, then the body makes
    its calls. *)
Definition perform (a : action) : State -> outcome unit :=
  match a with
  | CallDoLater c => doLater c
  | CallRunWhenTasksFinished c => runWhenTasksFinished c
  end.

Fixpoint perform_all (body : list action) : State -> outcome unit :=
  match body with
  | [] => ret tt
  | a :: body' => let! _ := perform a in perform_all body'
  end.

Definition call (c : callback) (st : State) : outcome unit :=
  perform_all (cb_body c) (set_invoked (invoked st ++ [cb_id c]) st).

(** [for (auto &call : calls) call();] over one of the two
    [std::list]s of the state.  The loop walks the list itself:
    [push_back] leaves its iterators valid and puts the new node before
    [end()], so an element appended while the loop runs is reached by the
    same loop.  [i] is the position of the iterator. *)
Fixpoint for_each_call (fuel : nat) (calls : State -> list callback)
    (i : nat) (st : State) {struct fuel} : outcome unit :=
  match calls st !! i with
  | None => Done tt st
  | Some c =>
      match fuel with
      | O => OutOfFuel
      | S fuel' =>
          (let! _ := call c in for_each_call fuel' calls (S i)) st
      end
  end.

Definition runDeferredCalls (fuel : nat) : State -> outcome unit :=
  scoped_lock s_deferredCallsMutex (
    let! _ := for_each_call fuel s_deferredCalls 0 in
    fun st => ret tt (set_deferredCalls [] st)).

(** The predicate handed to [std::erase_if] in [collectGarbage]. *)
Definition collectable (task : Task) : bool :=
  Task.isFinished task && negb (Task.hadException task).

Definition collectGarbage (fuel : nat) : State -> outcome unit :=
  let! _ := scoped_lock s_queueMutex (fun st =>
              ret tt (set_tasks
                        (List.filter
                           (fun a => negb (holds st collectable a))
                           (s_tasks st)) st)) in
  fun st =>
    match s_tasks st with
    | [] =>
        scoped_lock s_deferredCallsMutex (
          let! _ := for_each_call fuel s_tasksFinishedCallbacks 0 in
          fun st => ret tt (set_tasksFinishedCallbacks [] st)) st
    | _ :: _ => ret tt st
    end.

Definition getRunningTasks (st : State) : list nat := s_tasks st.

Definition count_if (p : Task -> bool) (st : State) : nat :=
  length (List.filter (holds st p) (s_tasks st)).

Definition getRunningTaskCount : State -> outcome nat :=
  scoped_lock s_queueMutex (fun st =>
    ret (count_if (fun task => negb (Task.isBackgroundTask task)) st) st).

Definition getRunningBackgroundTaskCount : State -> outcome nat :=
  scoped_lock s_queueMutex (fun st =>
    ret (count_if (fun task => Task.isBackgroundTask task) st) st).

(** The first loop of [exit]: [task->interrupt()] on every registry entry,
    in order; the callbacks this invokes are collected. *)
Fixpoint interrupt_all (l : list nat) (hp : gmap nat Task)
    : gmap nat Task * list hook :=
  match l with
  | [] => (hp, [])
  | a :: l' =>
      match hp !! a with
      | Some task =>
          let '(task', called) := Task.interrupt task in
          let '(hp', calls) := interrupt_all l' (<[a := task']> hp) in
          (hp', option_list called ++ calls)
      | None => interrupt_all l' hp
      end
  end.

(** The objects destroyed when the list [l] of shared pointers is cleared,
    front to back, while [others] keeps its own: an object goes with the
    last pointer to it. *)
Fixpoint released (l others : list nat) : list nat :=
  match l with
  | [] => []
  | a :: l' =>
      if bool_decide (a ∈ l' ++ others) then released l' others
      else a :: released l' others
  end.

(** [TaskManager::exit]: every registered task is interrupted; the workers
    are asked to stop and joined, so no task is taken from the queue any
    more; then [s_tasks] and [s_taskQueue] are cleared, which destroys the
    tasks.  No mutex is taken.  The result is the state left and the
    interrupt callbacks invoked on the way, by the loop and by the
    destructors. *)
Definition exit (st : State) : State * list hook :=
  let '(hp, by_loop) := interrupt_all (s_tasks st) (heap st) in
  let destroyed :=
    released (s_tasks st) (s_taskQueue st) ++ released (s_taskQueue st) [] in
  let by_destructors :=
    omap (fun a => match hp !! a with
                   | Some task => Task.destroy task
                   | None => None
                   end) destroyed in
  (set_taskQueue [] (set_tasks [] (set_heap hp st)),
   by_loop ++ by_destructors).

End TaskManager.

(** The manager before any call: nothing registered, nothing locked. *)
Definition initial : State :=
  {| heap := ∅; s_tasks := []; s_taskQueue := [];
     s_deferredCalls := []; s_tasksFinishedCallbacks := [];
     held := []; invoked := [] |}.

(** ** Every mutating member function of [Task], as one call

    [finish], [interruption] and [exception] are private; the worker loop
    is their only caller. *)

Inductive task_call : Type :=
| CUpdate (value : Z)
| CSetMaxValue (value : Z)
| CInterrupt
| CSetInterruptCallback (callback : option hook)
| CClearException
| CFinish
| CInterruption
| CException (message : string).

Definition apply_call (t : Task) (c : task_call) : Task :=
  match c with
  | CUpdate value => fst (Task.update value t)
  | CSetMaxValue value => Task.setMaxValue value t
  | CInterrupt => fst (Task.interrupt t)
  | CSetInterruptCallback callback => Task.setInterruptCallback callback t
  | CClearException => Task.clearException t
  | CFinish => Task.finish t
  | CInterruption => Task.interruption t
  | CException message => Task.exception message t
  end.

Definition apply_calls (t : Task) (calls : list task_call) : Task :=
  foldl apply_call t calls.

(** * Vocabulary of the properties *)

(** ** Tasks *)

(** [s] has the terminal flags of [t], or at least no exception that [t]
    had not. *)
Definition same_status (t s : Task) : Prop :=
  m_interrupted s = m_interrupted t
  /\ m_finished s = m_finished t
  /\ (m_hadException t = false -> m_hadException s = false).

(** The three terminal outcomes of a task. *)
Definition completed_normally (t : Task) : Prop :=
  Task.wasInterrupted t = false /\ Task.hadException t = false.

Definition ended_interrupted (t : Task) : Prop :=
  Task.wasInterrupted t = true /\ Task.hadException t = false.

Definition ended_failed (message : string) (t : Task) : Prop :=
  Task.wasInterrupted t = false /\ Task.hadException t = true
  /\ Task.getExceptionMessage t = message.

(** A task waiting in the queue: the worker has not written to it yet. *)
Definition pending (t : Task) : Prop :=
  m_finished t = false /\ m_interrupted t = false /\ m_hadException t = false.

(** The invariant as the data model words it: a populated message goes with
    a set flag. *)
Definition message_implies_flag (t : Task) : Prop :=
  Task.getExceptionMessage t <> EmptyString -> Task.hadException t = true.

(** ** Example states *)

(** The state an outcome ends in, for building examples. *)
Definition after {A : Type} (o : outcome A) : State :=
  match o with
  | Done _ st => st
  | Deadlock st => st
  | OutOfFuel => initial
  end.

(** The holder of the first task created. *)
Definition first_holder : TaskHolder :=
  mkTaskHolder (fresh (dom (heap initial))).

(** One task created and run to its end by a worker. *)
Definition ran_one (maxValue : Z) (background : bool)
    (function : list work_op) : State :=
  after (TaskManager.worker_iteration
           (after (TaskManager.createTask "task" maxValue background function
                     initial))).

(** ** What the specification says of progress and counts *)

(** The percentage as the specification words it: 0 for a dead holder or a
    ceiling of 0, the floor of [current * 100 / max] otherwise. *)
Definition spec_percent (st : State) (h : TaskHolder) : Z :=
  match TaskHolder.lock st h with
  | None => 0
  | Some task =>
      if Task.getMaxValue task =? 0 then 0
      else Task.getValue task * 100 / Task.getMaxValue task
  end.

(** Every registry entry points to a task object. *)
Definition registry_live (st : State) : Prop :=
  forall a, a ∈ s_tasks st -> is_Some (heap st !! a).

(** The counts as the specification words them: tasks that are not
    finished, split by the background flag. *)
Definition spec_running_count (st : State) : nat :=
  TaskManager.count_if
    (fun task => negb (Task.isBackgroundTask task)
                 && negb (Task.isFinished task)) st.

Definition spec_background_count (st : State) : nat :=
  TaskManager.count_if
    (fun task => Task.isBackgroundTask task && negb (Task.isFinished task)) st.

(** Registered tasks that are finished, by background flag. *)
Definition finished_count (background : bool) (st : State) : nat :=
  TaskManager.count_if
    (fun task => Bool.eqb (Task.isBackgroundTask task) background
                 && Task.isFinished task) st.

(** ** Callbacks under the lock

    Both loops that invoke callbacks run with [s_deferredCallsMutex] held
    and nothing else. *)

(** The callbacks a body registers with [runWhenTasksFinished]. *)
Fixpoint registered (body : list action) : list callback :=
  match body with
  | [] => []
  | CallDoLater _ :: body' => registered body'
  | CallRunWhenTasksFinished c :: body' => c :: registered body'
  end.

(** The body makes no call of [doLater]. *)
Fixpoint quiet (body : list action) : bool :=
  match body with
  | [] => true
  | CallDoLater _ :: _ => false
  | CallRunWhenTasksFinished _ :: body' => quiet body'
  end.

(** Neither the callback nor any callback it registers, and so on, calls
    [doLater]. *)
Fixpoint tame (c : callback) : bool :=
  match c with
  | Callback _ body =>
      (fix all (l : list action) : bool :=
         match l with
         | [] => true
         | CallDoLater _ :: _ => false
         | CallRunWhenTasksFinished c' :: l' => tame c' && all l'
         end) body
  end.

(** The number of callbacks in a callback, itself included. *)
Fixpoint weight (c : callback) : nat :=
  match c with
  | Callback _ body =>
      S ((fix sum (l : list action) : nat :=
            match l with
            | [] => O
            | CallDoLater c' :: l' => (weight c' + sum l')%nat
            | CallRunWhenTasksFinished c' :: l' => (weight c' + sum l')%nat
            end) body)
  end.

Fixpoint weights (l : list callback) : nat :=
  match l with
  | [] => O
  | c :: l' => (weight c + weights l')%nat
  end.

Definition registers (c : callback) : list callback := registered (cb_body c).

(** The state inside one of the two loops that invoke callbacks. *)
Definition firing (hp : gmap nat Task) (reg queue : list nat)
    (dc tfc : list callback) (inv : list nat) : State :=
  mkState hp reg queue dc tfc [s_deferredCallsMutex] inv.

(** Unfolding the setters on a state given by its fields. *)
Ltac simpl_state :=
  unfold set_heap, set_tasks, set_taskQueue, set_deferredCalls,
    set_tasksFinishedCallbacks, set_held, set_invoked, ret in *;
  cbn [heap s_tasks s_taskQueue s_deferredCalls s_tasksFinishedCallbacks
       held invoked tail] in *.

(** The registry entries [std::erase_if] keeps. *)
Definition kept (st : State) : list nat :=
  List.filter (fun a => negb (TaskManager.holds st TaskManager.collectable a))
    (s_tasks st).

(** The callbacks a body hands to [doLater]. *)
Fixpoint scheduled (body : list action) : list callback :=
  match body with
  | [] => []
  | CallDoLater c :: body' => c :: scheduled body'
  | CallRunWhenTasksFinished _ :: body' => scheduled body'
  end.

Definition schedules (c : callback) : list callback := scheduled (cb_body c).

(** A pass as the specification describes it: it invokes the callbacks
    queued when it started, each once and in order, and leaves in the
    queue, for the next pass, the callbacks those have scheduled. *)
Definition spec_deferred_pass (st : State) : Prop :=
  exists fuel st',
    TaskManager.runDeferredCalls fuel st = Done tt st'
    /\ invoked st' = invoked st ++ map cb_id (s_deferredCalls st)
    /\ s_deferredCalls st' = flat_map schedules (s_deferredCalls st).

(** A sequence of calls of [doLater] and [runDeferredCalls] made from
    outside, one after the other.  A pass gets as many steps as its queue
    is long. *)
Inductive deferred_op : Type :=
| Schedule (c : callback)
| RunDeferred.

Fixpoint exec_ops (ops : list deferred_op) : State -> outcome unit :=
  match ops with
  | [] => ret tt
  | Schedule c :: ops' =>
      let! _ := TaskManager.doLater c in exec_ops ops'
  | RunDeferred :: ops' =>
      let! _ := (fun st =>
                   TaskManager.runDeferredCalls
                     (length (s_deferredCalls st)) st) in
      exec_ops ops'
  end.

(** The callbacks a sequence submits, in order, and those submitted since
    its last pass, given the queue [q] it started with. *)
Fixpoint submitted (ops : list deferred_op) : list callback :=
  match ops with
  | [] => []
  | Schedule c :: ops' => c :: submitted ops'
  | RunDeferred :: ops' => submitted ops'
  end.

Fixpoint pending_after (ops : list deferred_op) (q : list callback)
    : list callback :=
  match ops with
  | [] => q
  | Schedule c :: ops' => pending_after ops' (q ++ [c])
  | RunDeferred :: ops' => pending_after ops' []
  end.

(** A deferred call that schedules another deferred call. *)
Definition rescheduling : callback := Callback 1 [CallDoLater (Callback 2 [])].

(** A completion callback that calls [doLater]. *)
Definition deferring : callback := Callback 1 [CallDoLater (Callback 2 [])].

(** ** Calls from outside, one after the other *)

(** Several rounds of the worker loop in a row. *)
Fixpoint worker_iterations (n : nat) : State -> outcome unit :=
  match n with
  | O => ret tt
  | S n' => let! _ := TaskManager.worker_iteration in worker_iterations n'
  end.

(** The member functions of [Task] that are public. *)
Definition public (c : task_call) : bool :=
  match c with
  | CFinish | CInterruption | CException _ => false
  | _ => true
  end.

(** A member function called on a task through the shared pointer that
    [getRunningTasks] hands out for it. *)
Definition call_on_task (a : nat) (c : task_call) (st : State) : State :=
  if bool_decide (a ∈ TaskManager.getRunningTasks st)
  then set_heap (alter (fun task => apply_call task c) a (heap st)) st
  else st.

(** What the rest of the program can do with the manager. *)
Inductive manager_op : Type :=
| OpCreateTask (name : string) (maxValue : Z) (background : bool)
    (function : list work_op)
| OpWorker
| OpCollectGarbage (fuel : nat)
| OpDoLater (c : callback)
| OpRunWhenTasksFinished (c : callback)
| OpRunDeferredCalls (fuel : nat)
| OpHolderInterrupt (h : TaskHolder)
| OpTaskCall (a : nat) (c : task_call)
| OpExit.

Definition perform_op (op : manager_op) : State -> outcome unit :=
  match op with
  | OpCreateTask name maxValue background function =>
      let! _ := TaskManager.createTask name maxValue background function in
      ret tt
  | OpWorker => TaskManager.worker_iteration
  | OpCollectGarbage fuel => TaskManager.collectGarbage fuel
  | OpDoLater c => TaskManager.doLater c
  | OpRunWhenTasksFinished c => TaskManager.runWhenTasksFinished c
  | OpRunDeferredCalls fuel => TaskManager.runDeferredCalls fuel
  | OpHolderInterrupt h => fun st => ret tt (fst (TaskHolder.interrupt st h))
  | OpTaskCall a c =>
      fun st => ret tt (if public c then call_on_task a c st else st)
  | OpExit => fun st => ret tt (fst (TaskManager.exit st))
  end.

Fixpoint perform_ops (ops : list manager_op) : State -> outcome unit :=
  match ops with
  | [] => ret tt
  | op :: ops' => let! _ := perform_op op in perform_ops ops'
  end.

(** The shape of the manager between two calls: no mutex locked, no task
    registered or queued twice, every queued task registered, every
    registered task an object, every queued task still untouched by a
    worker. *)
Definition at_rest (st : State) : Prop :=
  held st = []
  /\ NoDup (s_tasks st)
  /\ NoDup (s_taskQueue st)
  /\ (forall a, a ∈ s_taskQueue st -> a ∈ s_tasks st)
  /\ registry_live st
  /\ (forall a task,
        a ∈ s_taskQueue st -> heap st !! a = Some task -> pending task).

(** A work-function step that neither reaches the cancellation checkpoint
    nor throws. *)
Definition calm (op : work_op) : bool :=
  match op with
  | WUpdate _ | WThrow _ | WThrowUnknown => false
  | _ => true
  end.

(** * Properties *)

(** ** [Task::update] *)

Section Update.

Variable value : Z.
Variable t : Task.

Lemma update_stores : Task.getValue (fst (Task.update value t)) = value.
Proof. unfold Task.update; cbn. by destruct (m_shouldInterrupt t). Qed.

Lemma update_result :
  snd (Task.update value t)
  = if Task.shouldInterrupt t then Raise TaskInterruptor else Ok tt.
Proof.
  unfold Task.update, Task.shouldInterrupt; cbn.
  by destruct (m_shouldInterrupt t).
Qed.

Lemma update_state : fst (Task.update value t) = set_currValue value t.
Proof. unfold Task.update; cbn. by destruct (m_shouldInterrupt t). Qed.

End Update.

Lemma step_interruptor op t :
  snd (step op t) = Raise TaskInterruptor ->
  exists value, op = WUpdate value /\ Task.shouldInterrupt t = true.
Proof.
  destruct op; cbn; try discriminate.
  rewrite update_result.
  destruct (Task.shouldInterrupt t); [eauto | discriminate].
Qed.

(** A work function left by the cancellation signal was inside a call of
    [update], made while interruption was requested. *)
Lemma run_interruptor ops : forall t seen t1,
  run ops t = (seen, t1, Raise TaskInterruptor) ->
  exists before value after t0,
    ops = before ++ WUpdate value :: after
    /\ Task.shouldInterrupt t0 = true
    /\ t1 = set_currValue value t0.
Proof.
  induction ops as [|op ops IH]; intros t seen t1 Hrun; [discriminate|].
  cbn in Hrun.
  destruct (step op t) as [t' [[]|e]] eqn:Hstep.
  - destruct (run ops t') as [[seen' t''] r] eqn:Hrest.
    injection Hrun as <- <- ->.
    destruct (IH _ _ _ Hrest) as (before & v & after & t0 & -> & Hi & Ht).
    exists (op :: before), v, after, t0. by rewrite Ht.
  - injection Hrun as <- <- ->.
    destruct (step_interruptor op t) as (v & -> & Hi).
    { by rewrite Hstep. }
    exists [], v, ops, t. split; [done|]. split; [done|].
    cbn in Hstep. rewrite <- update_state.
    by rewrite (surjective_pairing (Task.update v t)) in Hstep;
      injection Hstep as <- _.
Qed.

(** C7.  [Task::update(value)] on a task whose interruption has not been
    requested stores [value] as the current progress and returns normally;
    on a task whose interruption has been requested it raises the
    cancellation signal [TaskInterruptor] instead of returning; and no
    other step of a work function raises that signal: a step that raises
    it is a call of [update] under a pending interruption, and a work
    function that ends with it was in such a call. *)
Theorem update_is_the_cancellation_checkpoint :
  (forall value t,
     Task.shouldInterrupt t = false ->
     Task.update value t = (set_currValue value t, Ok tt)
     /\ Task.getValue (set_currValue value t) = value)
  /\ (forall value t,
        Task.shouldInterrupt t = true ->
        snd (Task.update value t) = Raise TaskInterruptor)
  /\ (forall op t,
        snd (step op t) = Raise TaskInterruptor ->
        exists value, op = WUpdate value /\ Task.shouldInterrupt t = true)
  /\ (forall ops t seen t1,
        run ops t = (seen, t1, Raise TaskInterruptor) ->
        exists before value after t0,
          ops = before ++ WUpdate value :: after
          /\ Task.shouldInterrupt t0 = true
          /\ t1 = set_currValue value t0).
Proof.
  repeat split.
  - unfold Task.update, Task.shouldInterrupt in *; cbn. by rewrite H.
  - intros value t H. by rewrite update_result, H.
  - apply step_interruptor.
  - apply run_interruptor.
Qed.

Lemma update_is_the_cancellation_checkpoint_witness :
  let fresh_task := Task.new "copy" 10 false [WUpdate 5] in
  Task.update 5 fresh_task = (set_currValue 5 fresh_task, Ok tt)
  /\ snd (Task.update 5 (fst (Task.interrupt fresh_task)))
     = Raise TaskInterruptor.
Proof.
  destruct update_is_the_cancellation_checkpoint as (Hquiet & Hraise & _).
  split.
  - apply Hquiet. reflexivity.
  - apply Hraise. reflexivity.
Defined.

(** ** What a worker iteration leaves untouched

    No step of a work function writes [m_interrupted] or [m_finished], and
    none sets [m_hadException]. *)

Lemma same_status_refl t : same_status t t.
Proof. by repeat split. Qed.

Lemma same_status_trans t s u :
  same_status t s -> same_status s u -> same_status t u.
Proof.
  intros (Hi & Hf & He) (Hi' & Hf' & He').
  repeat split; [congruence | congruence | auto].
Qed.

Lemma step_same_status op t : same_status t (fst (step op t)).
Proof.
  destruct op; cbn; try by repeat split.
  rewrite update_state. by repeat split.
Qed.

Lemma run_same_status ops : forall t seen t1 r,
  run ops t = (seen, t1, r) ->
  same_status t t1 /\ Forall (same_status t) seen.
Proof.
  induction ops as [|op ops IH]; intros t seen t1 r Hrun; cbn in Hrun.
  - injection Hrun as <- <- <-. split; [apply same_status_refl | constructor].
  - pose proof (step_same_status op t) as Hstep.
    destruct (step op t) as [t' [[]|e]]; cbn in Hstep.
    + destruct (run ops t') as [[seen' t''] r'] eqn:Hrest.
      injection Hrun as <- <- <-.
      destruct (IH _ _ _ _ Hrest) as [Hlast Hseen].
      split; [by eapply same_status_trans|].
      constructor; [done|].
      eapply Forall_impl; [exact Hseen|].
      intros s Hs. by eapply same_status_trans.
    + injection Hrun as <- <- <-. split; [done | by constructor].
Qed.

(** The current progress after a work function that ends in the
    cancellation signal is the argument of the call of [update] that
    raised it. *)
Lemma run_interrupted_value value ops t :
  Task.shouldInterrupt t = true ->
  run (WUpdate value :: ops) t
  = ([set_currValue value t], set_currValue value t, Raise TaskInterruptor).
Proof.
  intros Hi. cbn. unfold Task.update.
  unfold Task.shouldInterrupt in Hi. cbn. by rewrite Hi.
Qed.

(** C10.  A call [update(value)] made while interruption is requested
    stores [value] before it raises the cancellation signal: the call does
    not return, yet the task it leaves behind reads [value] through
    [getValue]; and when the worker has finished with a task whose work
    function was cancelled in that call, the task is marked interrupted and
    still reads [value]. *)
Theorem update_stores_before_raising value t :
  Task.shouldInterrupt t = true ->
  snd (Task.update value t) = Raise TaskInterruptor
  /\ Task.getValue (fst (Task.update value t)) = value
  /\ (forall rest,
        m_function t = WUpdate value :: rest ->
        Task.getValue (executed t) = value
        /\ Task.wasInterrupted (executed t) = true).
Proof.
  intros Hi. split; [by rewrite update_result, Hi|].
  split; [apply update_stores|].
  intros rest Hf. unfold executed.
  by rewrite Hf, run_interrupted_value.
Qed.

Lemma update_stores_before_raising_witness :
  let cancelled :=
    fst (Task.interrupt (Task.new "scan" 100 false [WUpdate 42; WUpdate 43])) in
  snd (Task.update 42 cancelled) = Raise TaskInterruptor
  /\ Task.getValue (fst (Task.update 42 cancelled)) = 42
  /\ Task.getValue (executed cancelled) = 42.
Proof.
  intros cancelled.
  destruct (update_stores_before_raising 42 cancelled) as (Hr & Hv & Hw).
  { reflexivity. }
  split; [exact Hr|]. split; [exact Hv|].
  apply (Hw [WUpdate 43]). reflexivity.
Defined.

(** ** The worker's classification *)

Lemma new_pending name maxValue background function :
  pending (Task.new name maxValue background function).
Proof. by repeat split. Qed.

Lemma interrupt_pending t : pending t -> pending (fst (Task.interrupt t)).
Proof. by intros (? & ? & ?). Qed.

Lemma classify_finished r t : m_finished (classify r t) = m_finished t.
Proof. by destruct r as [|[]]. Qed.

Lemma execute_last t : last (execute t) = Some (executed t).
Proof.
  unfold execute, executed.
  destruct (run (m_function t) t) as [[seen t1] r].
  replace (t :: seen ++ [classify r t1; Task.finish (classify r t1)])
    with ((t :: seen ++ [classify r t1]) ++ [Task.finish (classify r t1)]).
  - apply last_snoc.
  - cbn. by rewrite <- app_assoc.
Qed.

Lemma execute_unfinished t s :
  pending t -> s ∈ execute t -> m_finished s = true -> s = executed t.
Proof.
  intros (Hf & Hi & He) Hin Hfin. unfold execute, executed in *.
  destruct (run (m_function t) t) as [[seen t1] r] eqn:Hrun.
  destruct (run_same_status _ _ _ _ _ Hrun) as [(_ & Hf1 & _) Hseen].
  apply elem_of_cons in Hin as [-> | Hin]; [congruence|].
  apply elem_of_app in Hin as [Hin | Hin].
  - rewrite Forall_forall in Hseen.
    destruct (Hseen _ Hin) as (_ & Hfs & _). congruence.
  - apply elem_of_cons in Hin as [-> | Hin].
    + rewrite classify_finished in Hfin. congruence.
    + by apply list_elem_of_singleton in Hin.
Qed.

(** C4.  For a task taken from the queue, one worker iteration ends in
    exactly one of three outcomes, decided by how the work function was
    left: by the cancellation signal, the task is interrupted and not
    failed; by a standard exception, it is failed with that exception's
    message and not interrupted; by any other exception, it is failed with
    the message "Unknown Exception" and not interrupted; by a normal
    return, it is neither.  [m_finished] is set after that: the last state
    of the iteration is finished, and every state of the iteration in which
    an observer reads [m_finished] as true is that last state. *)
Theorem worker_outcome_is_unique t seen t1 r :
  pending t ->
  run (m_function t) t = (seen, t1, r) ->
  Task.isFinished (executed t) = true
  /\ last (execute t) = Some (executed t)
  /\ (forall s, s ∈ execute t -> Task.isFinished s = true -> s = executed t)
  /\ match r with
     | Ok _ =>
         completed_normally (executed t)
         /\ ~ ended_interrupted (executed t)
         /\ forall message, ~ ended_failed message (executed t)
     | Raise TaskInterruptor =>
         ended_interrupted (executed t)
         /\ ~ completed_normally (executed t)
         /\ forall message, ~ ended_failed message (executed t)
     | Raise (StdException what) =>
         ended_failed what (executed t)
         /\ ~ completed_normally (executed t)
         /\ ~ ended_interrupted (executed t)
     | Raise UnknownException =>
         ended_failed "Unknown Exception" (executed t)
         /\ ~ completed_normally (executed t)
         /\ ~ ended_interrupted (executed t)
     end.
Proof.
  intros Hp Hrun.
  split; [|split; [apply execute_last | split]].
  - unfold executed. by destruct (run (m_function t) t) as [[? ?] ?].
  - intros s. by apply execute_unfinished.
  - destruct Hp as (Hf & Hi & He).
    destruct (run_same_status _ _ _ _ _ Hrun) as [(Hi1 & Hf1 & He1) _].
    specialize (He1 He). rewrite Hi in Hi1.
    unfold executed. rewrite Hrun.
    unfold completed_normally, ended_interrupted, ended_failed,
      Task.wasInterrupted, Task.hadException, Task.getExceptionMessage.
    destruct r as [[]|[|what|]]; cbn; rewrite ?Hi1, ?He1;
      repeat split; try done; intros; intros (? & ?); try congruence;
      intuition congruence.
Qed.

Lemma worker_outcome_is_unique_witness :
  let t := Task.new "hash" 4 false [WUpdate 1; WThrow "disk"; WUpdate 2] in
  Task.isFinished (executed t) = true
  /\ ended_failed "disk" (executed t).
Proof.
  intros t.
  destruct (worker_outcome_is_unique t
              [set_currValue 1 t; set_currValue 1 t] (set_currValue 1 t)
              (Raise (StdException "disk")))
    as (Hfin & _ & _ & Hfailed & _).
  - apply new_pending.
  - reflexivity.
  - split; [exact Hfin | exact Hfailed].
Defined.

(** ** The exception message and the failure flag *)

Lemma apply_call_message t c :
  c <> CClearException ->
  message_implies_flag t -> message_implies_flag (apply_call t c).
Proof.
  unfold message_implies_flag, Task.getExceptionMessage, Task.hadException.
  intros Hc Ht.
  destruct c; cbn; try done; try (by rewrite update_state).
Qed.

Lemma apply_calls_message calls : forall t,
  CClearException ∉ calls ->
  message_implies_flag t -> message_implies_flag (apply_calls t calls).
Proof.
  induction calls as [|c calls IH]; intros t Hnot Ht; [done|].
  cbn. apply IH.
  - intros Hin. apply Hnot. by right.
  - apply apply_call_message; [|done].
    intros ->. apply Hnot. by left.
Qed.

(** [clearException] is the one call that breaks it. *)
Lemma message_outlives_flag :
  let failed := apply_calls (Task.new "load" 0 false [])
                  [CException "boom"; CClearException] in
  Task.getExceptionMessage failed = "boom"%string
  /\ Task.hadException failed = false.
Proof. by split. Qed.

(** C9, as stated, fails: after [exception("boom")] and
    [clearException()] the message is "boom" and the flag is false. *)
Lemma message_without_flag :
  ~ (forall calls : list task_call,
       message_implies_flag
         (apply_calls (Task.new "load" 0 false []) calls)).
Proof.
  intros H.
  specialize (H [CException "boom"%string; CClearException]).
  unfold message_implies_flag in H. cbn in H.
  discriminate H. discriminate.
Qed.

(** C9, amended.  In every task state reached from a new task by member
    function calls other than [clearException()], the exception message is
    populated only when [hadException] is true; [clearException()] resets
    the flag and leaves the message as it is. *)
Theorem message_implies_flag_until_cleared name maxValue background function
    calls :
  CClearException ∉ calls ->
  message_implies_flag
    (apply_calls (Task.new name maxValue background function) calls)
  /\ (forall t,
        Task.hadException (Task.clearException t) = false
        /\ Task.getExceptionMessage (Task.clearException t)
           = Task.getExceptionMessage t).
Proof.
  intros Hnot. split; [|done].
  apply apply_calls_message; [done|].
  intros Hmsg. by destruct Hmsg.
Qed.

Lemma message_implies_flag_until_cleared_witness :
  message_implies_flag
    (apply_calls (Task.new "load" 8 false [])
       [CUpdate 3; CInterrupt; CException "boom"; CFinish]).
Proof.
  apply (message_implies_flag_until_cleared "load" 8 false []
           [CUpdate 3; CInterrupt; CException "boom"%string; CFinish]).
  intros Hin.
  repeat (apply elem_of_cons in Hin as [Hin | Hin]; [discriminate Hin|]).
  by apply elem_of_nil in Hin.
Defined.

(** ** TaskHolder status accessors *)

Section Holder.

Variable st : State.
Variable h : TaskHolder.

Lemma dead_holder :
  TaskHolder.lock st h = None ->
  TaskHolder.isRunning st h = false
  /\ TaskHolder.hadException st h = false
  /\ TaskHolder.wasInterrupted st h = false
  /\ TaskHolder.shouldInterrupt st h = false
  /\ TaskHolder.getProgress st h = 0
  /\ TaskHolder.interrupt st h = (st, None).
Proof.
  unfold TaskHolder.isRunning, TaskHolder.hadException,
    TaskHolder.wasInterrupted, TaskHolder.shouldInterrupt,
    TaskHolder.getProgress, TaskHolder.interrupt.
  by intros ->.
Qed.

Lemma live_holder task :
  TaskHolder.lock st h = Some task ->
  TaskHolder.isRunning st h = negb (Task.isFinished task)
  /\ TaskHolder.hadException st h = negb (Task.hadException task)
  /\ TaskHolder.wasInterrupted st h = negb (Task.wasInterrupted task)
  /\ TaskHolder.shouldInterrupt st h = negb (Task.shouldInterrupt task).
Proof.
  unfold TaskHolder.isRunning, TaskHolder.hadException,
    TaskHolder.wasInterrupted, TaskHolder.shouldInterrupt.
  by intros ->.
Qed.

End Holder.

(** C1.  The code at a task that has just been created and nothing else
    done to: the three flags of the task are false, and the holder's
    [hadException], [wasInterrupted] and [shouldInterrupt] all answer true.
    Once the same task has run to a normal end and been collected, the
    same holder answers false to all three. *)
Theorem holder_of_new_task_reports_all_flags :
  let st := after (TaskManager.createTask "task" 10 false [] initial) in
  let collected := after (TaskManager.collectGarbage 0 (ran_one 10 false [])) in
  (exists task,
     TaskHolder.lock st first_holder = Some task
     /\ Task.hadException task = false
     /\ Task.wasInterrupted task = false
     /\ Task.shouldInterrupt task = false)
  /\ TaskHolder.hadException st first_holder = true
  /\ TaskHolder.wasInterrupted st first_holder = true
  /\ TaskHolder.shouldInterrupt st first_holder = true
  /\ TaskHolder.lock collected first_holder = None
  /\ TaskHolder.hadException collected first_holder = false
  /\ TaskHolder.wasInterrupted collected first_holder = false
  /\ TaskHolder.shouldInterrupt collected first_holder = false.
Proof.
  cbv zeta. split.
  - eexists. split; [vm_compute; reflexivity|]. by vm_compute.
  - by vm_compute.
Qed.

(** ** Progress *)

(** C8, as stated, fails: a task with ceiling [2 ^ 62] whose work function
    reports [2 ^ 62] is at 100 percent, and [getProgress] answers 0, the
    product [current * 100] having wrapped around in [u64]. *)
Lemma getProgress_wraps :
  let st := ran_one (2 ^ 62) false [WUpdate (2 ^ 62)] in
  spec_percent st first_holder = 100
  /\ TaskHolder.getProgress st first_holder = 0
  /\ TaskHolder.getProgress st first_holder <> spec_percent st first_holder.
Proof. by vm_compute. Qed.

(** C8, amended.  [getProgress] returns 0 when the referent is gone or its
    ceiling is 0; otherwise it returns the [u64] product [current * 100]
    divided by the ceiling and narrowed to [u32], which is the floor of
    [current * 100 / max], with no clamping to 100, whenever
    [current * 100] is below [2 ^ 64] and that quotient is below
    [2 ^ 32]. *)
Theorem getProgress_is_floor_in_range st h :
  (TaskHolder.lock st h = None -> TaskHolder.getProgress st h = 0)
  /\ (forall task,
        TaskHolder.lock st h = Some task ->
        Task.getMaxValue task = 0 ->
        TaskHolder.getProgress st h = 0)
  /\ (forall task,
        TaskHolder.lock st h = Some task ->
        Task.getMaxValue task <> 0 ->
        TaskHolder.getProgress st h
        = to_u32 (to_u64 (Task.getValue task * 100) / Task.getMaxValue task))
  /\ (forall task,
        TaskHolder.lock st h = Some task ->
        0 < Task.getMaxValue task ->
        0 <= Task.getValue task ->
        Task.getValue task * 100 < 2 ^ 64 ->
        Task.getValue task * 100 / Task.getMaxValue task < 2 ^ 32 ->
        TaskHolder.getProgress st h
        = Task.getValue task * 100 / Task.getMaxValue task
        /\ TaskHolder.getProgress st h = spec_percent st h).
Proof.
  unfold TaskHolder.getProgress, spec_percent.
  split; [by intros ->|]. split; [|split].
  - intros task -> ->. done.
  - intros task -> Hmax. by apply Z.eqb_neq in Hmax as ->.
  - intros task -> Hmax Hval Hprod Hquot.
    assert ((Task.getMaxValue task =? 0) = false) as ->
      by (apply Z.eqb_neq; lia).
    unfold to_u64, to_u32.
    rewrite (Z.mod_small (Task.getValue task * 100)) by lia.
    rewrite Z.mod_small; [done|].
    split; [apply Z.div_pos; lia | done].
Qed.

Lemma getProgress_is_floor_in_range_witness :
  let st := ran_one 10 false [WUpdate 4; WUpdate 15] in
  TaskHolder.getProgress st first_holder = 150
  /\ TaskHolder.getProgress (after (TaskManager.collectGarbage 0 st))
       first_holder = 0.
Proof.
  intros st.
  destruct (getProgress_is_floor_in_range st first_holder)
    as (_ & _ & _ & Hfloor).
  destruct (getProgress_is_floor_in_range
              (after (TaskManager.collectGarbage 0 st)) first_holder)
    as (Hdead & _).
  split.
  - destruct (Hfloor (executed (Task.new "task" 10 false
                                  [WUpdate 4; WUpdate 15]))) as [-> _];
      by vm_compute.
  - apply Hdead. by vm_compute.
Defined.

(** ** Locks taken from outside

    A manager function called while its mutex is free runs its block and
    gives the mutex back. *)

Lemma set_held_restore l st : set_held (held st) (set_held l st) = st.
Proof. by destruct st. Qed.

Lemma scoped_lock_free {A : Type} m (block : State -> outcome A) st :
  m ∉ held st ->
  scoped_lock m block st
  = match block (set_held (m :: held st) st) with
    | Done a st' => Done a (set_held (tail (held st')) st')
    | Deadlock st' => Deadlock st'
    | OutOfFuel => OutOfFuel
    end.
Proof. intros Hfree. unfold scoped_lock. by rewrite bool_decide_eq_false_2. Qed.

Lemma scoped_lock_held {A : Type} m (block : State -> outcome A) st :
  m ∈ held st -> scoped_lock m block st = Deadlock st.
Proof. intros Hheld. unfold scoped_lock. by rewrite bool_decide_eq_true_2. Qed.

(** ** Submission and execution *)

Lemma createTask_top name maxValue background function hp reg queue dc tfc
    inv :
  let a := fresh (dom hp) in
  TaskManager.createTask name maxValue background function
    (mkState hp reg queue dc tfc [] inv)
  = Done (mkTaskHolder a)
      (mkState (<[a := Task.new name maxValue background function]> hp)
         (reg ++ [a]) (queue ++ [a]) dc tfc [] inv).
Proof.
  unfold TaskManager.createTask.
  by rewrite scoped_lock_free by (cbn; apply not_elem_of_nil).
Qed.

(** The task a new holder points to is the new task, waiting in the queue
    and not yet written to by a worker. *)
Lemma createTask_pending name maxValue background function hp reg queue dc
    tfc inv :
  exists h st',
    TaskManager.createTask name maxValue background function
      (mkState hp reg queue dc tfc [] inv) = Done h st'
    /\ m_task h ∈ s_taskQueue st'
    /\ exists task, TaskHolder.lock st' h = Some task /\ pending task.
Proof.
  eexists _, _. split; [apply createTask_top|].
  cbn [m_task s_taskQueue]. split.
  - apply elem_of_app. right. by left.
  - eexists. split; [|apply new_pending].
    unfold TaskHolder.lock. cbn [m_task s_tasks s_taskQueue heap].
    rewrite bool_decide_eq_true_2.
    + apply lookup_insert_eq.
    + rewrite !elem_of_app. left. right. by left.
Qed.

(** A worker takes the task at the front of the queue and leaves it as
    [executed] leaves it. *)
Lemma worker_iteration_top hp reg a queue dc tfc inv task :
  hp !! a = Some task ->
  TaskManager.worker_iteration (mkState hp reg (a :: queue) dc tfc [] inv)
  = Done tt (mkState (<[a := executed task]> hp) reg queue dc tfc [] inv).
Proof.
  intros Htask. unfold TaskManager.worker_iteration, bind.
  rewrite scoped_lock_free by (cbn; apply not_elem_of_nil).
  simpl_state. by rewrite Htask.
Qed.

(** ** Counting *)

Lemma filter_split {A : Type} (p q : A -> bool) (l : list A) :
  length (List.filter p l)
  = (length (List.filter (fun x => p x && q x) l)
     + length (List.filter (fun x => p x && negb (q x)) l))%nat.
Proof.
  induction l as [|x l IH]; [done|].
  cbn. destruct (p x), (q x); cbn; lia.
Qed.

Lemma filter_partition {A : Type} (p : A -> bool) (l : list A) :
  (length (List.filter p l) + length (List.filter (fun x => negb (p x)) l)
   = length l)%nat.
Proof.
  induction l as [|x l IH]; [done|].
  cbn. destruct (p x); cbn; lia.
Qed.

Lemma filter_ext_in {A : Type} (p q : A -> bool) (l : list A) :
  (forall x, x ∈ l -> p x = q x) -> List.filter p l = List.filter q l.
Proof.
  induction l as [|x l IH]; intros Hpq; [done|].
  cbn. rewrite (Hpq x) by by left.
  rewrite IH; [done|]. intros y Hy. apply Hpq. by right.
Qed.

(** C3, as stated, fails: a foreground task whose work function threw is
    finished and stays registered through [collectGarbage]; it is still
    counted by [getRunningTaskCount]. *)
Lemma finished_task_is_counted :
  let st := after (TaskManager.collectGarbage 0
                     (ran_one 0 false [WThrow "boom"])) in
  TaskHolder.isRunning st first_holder = false
  /\ spec_running_count st = 0%nat
  /\ TaskManager.getRunningTaskCount st = Done 1%nat st
  /\ TaskManager.getRunningTaskCount st <> Done (spec_running_count st) st.
Proof. by vm_compute. Qed.

Lemma count_if_split p q st :
  TaskManager.count_if p st
  = (TaskManager.count_if (fun task => p task && negb (q task)) st
     + TaskManager.count_if (fun task => p task && q task) st)%nat.
Proof.
  unfold TaskManager.count_if.
  rewrite (filter_split (TaskManager.holds st p) (TaskManager.holds st q)).
  rewrite Nat.add_comm. f_equal; f_equal; apply filter_ext_in;
    intros a _; unfold TaskManager.holds; by destruct (heap st !! a).
Qed.

Lemma count_if_ext p q st :
  (forall task, p task = q task) ->
  TaskManager.count_if p st = TaskManager.count_if q st.
Proof.
  intros Hpq. unfold TaskManager.count_if. f_equal.
  apply filter_ext_in. intros a _. unfold TaskManager.holds.
  by destruct (heap st !! a).
Qed.

Lemma count_if_partition p st :
  registry_live st ->
  (TaskManager.count_if (fun task => negb (p task)) st
   + TaskManager.count_if p st = length (s_tasks st))%nat.
Proof.
  intros Hlive. unfold TaskManager.count_if.
  rewrite Nat.add_comm,
    <- (filter_partition (TaskManager.holds st p) (s_tasks st)).
  f_equal. f_equal. apply filter_ext_in. intros a Ha.
  unfold TaskManager.holds. by destruct (Hlive a Ha) as [task ->].
Qed.

Lemma count_if_set_held p l st :
  TaskManager.count_if p (set_held l st) = TaskManager.count_if p st.
Proof. reflexivity. Qed.

(** C3, amended.  [getRunningTaskCount] returns the number of registered
    tasks that are not background and [getRunningBackgroundTaskCount] the
    number that are background; neither looks at the finished flag, so each
    count is the number of unfinished tasks of its kind plus the number of
    finished ones still registered, and the two counts together cover the
    whole registry. *)
Theorem counts_split_registry_by_background st :
  s_queueMutex ∉ held st ->
  exists foreground background : nat,
    TaskManager.getRunningTaskCount st = Done foreground st
    /\ TaskManager.getRunningBackgroundTaskCount st = Done background st
    /\ foreground
       = TaskManager.count_if
           (fun task => negb (Task.isBackgroundTask task)) st
    /\ background = TaskManager.count_if Task.isBackgroundTask st
    /\ foreground = (spec_running_count st + finished_count false st)%nat
    /\ background = (spec_background_count st + finished_count true st)%nat
    /\ (registry_live st ->
        (foreground + background)%nat = length (s_tasks st)).
Proof.
  intros Hfree. eexists _, _.
  unfold TaskManager.getRunningTaskCount,
    TaskManager.getRunningBackgroundTaskCount.
  rewrite !scoped_lock_free by done. unfold ret.
  change (tail (held (set_held (s_queueMutex :: held st) st)))
    with (held st).
  rewrite !set_held_restore, !count_if_set_held.
  split; [reflexivity|]. split; [reflexivity|].
  split; [reflexivity|]. split; [reflexivity|].
  split; [|split].
  - rewrite (count_if_split _ Task.isFinished).
    unfold spec_running_count, finished_count.
    apply (f_equal2 Nat.add); apply count_if_ext; intros task;
      by destruct (Task.isBackgroundTask task).
  - rewrite (count_if_split Task.isBackgroundTask Task.isFinished).
    unfold spec_background_count, finished_count.
    apply (f_equal2 Nat.add); apply count_if_ext; intros task;
      by destruct (Task.isBackgroundTask task).
  - apply count_if_partition.
Qed.

Lemma counts_split_registry_by_background_witness :
  let st :=
    after (TaskManager.createBackgroundTask "index" []
             (after (TaskManager.collectGarbage 0
                       (ran_one 0 false [WThrow "boom"])))) in
  TaskManager.getRunningTaskCount st = Done 1%nat st
  /\ TaskManager.getRunningBackgroundTaskCount st = Done 1%nat st
  /\ spec_running_count st = 0%nat
  /\ length (s_tasks st) = 2%nat.
Proof.
  intros st.
  destruct (counts_split_registry_by_background st)
    as (foreground & background & Hfg & Hbg & -> & -> & _ & _ & Hall).
  - vm_compute. apply not_elem_of_nil.
  - split; [exact Hfg|]. split; [exact Hbg|]. split; [reflexivity|].
    rewrite <- Hall; [reflexivity|].
    intros a Ha. vm_compute in Ha.
    apply elem_of_cons in Ha as [-> | Ha];
      [|apply elem_of_cons in Ha as [-> | Ha]].
    + eexists. vm_compute. reflexivity.
    + eexists. vm_compute. reflexivity.
    + by apply elem_of_nil in Ha.
Defined.

(** ** What a callback does when the manager invokes it *)

Lemma weights_app l1 l2 : weights (l1 ++ l2) = (weights l1 + weights l2)%nat.
Proof. induction l1 as [|c l1 IH]; cbn; [done | lia]. Qed.

Lemma weight_registers c : (weights (registers c) < weight c)%nat.
Proof.
  destruct c as [id body]. unfold registers. cbn.
  apply Nat.lt_succ_r.
  induction body as [|[c'|c'] body IH]; cbn; lia.
Qed.

Lemma tame_quiet c : tame c = true -> quiet (cb_body c) = true.
Proof.
  destruct c as [id body]. cbn.
  induction body as [|[c'|c'] body IH]; cbn; [done | done |].
  intros [_ H]%andb_prop. by apply IH.
Qed.

Lemma tame_registers c :
  tame c = true -> forallb tame (registers c) = true.
Proof.
  destruct c as [id body]. unfold registers. cbn.
  induction body as [|[c'|c'] body IH]; cbn; [done | done |].
  intros [Hc H]%andb_prop. rewrite Hc. by apply IH.
Qed.

Section Firing.

Variables (hp : gmap nat Task) (reg queue : list nat).

Lemma perform_all_quiet body : forall dc tfc inv,
  quiet body = true ->
  TaskManager.perform_all body (firing hp reg queue dc tfc inv)
  = Done tt (firing hp reg queue dc (tfc ++ registered body) inv).
Proof.
  induction body as [|[c|c] body IH]; intros dc tfc inv Hq.
  - cbn. by rewrite app_nil_r.
  - discriminate.
  - cbn [TaskManager.perform_all]. unfold bind.
    cbn [TaskManager.perform].
    unfold TaskManager.runWhenTasksFinished.
    rewrite scoped_lock_free.
    + unfold firing in *. simpl_state. rewrite IH by done.
      by rewrite <- app_assoc.
    + cbn. intros [=]%list_elem_of_singleton.
Qed.

Lemma perform_all_loud body : forall dc tfc inv,
  quiet body = false ->
  exists tfc',
    TaskManager.perform_all body (firing hp reg queue dc tfc inv)
    = Deadlock (firing hp reg queue dc tfc' inv).
Proof.
  induction body as [|[c|c] body IH]; intros dc tfc inv Hq.
  - discriminate.
  - exists tfc. cbn [TaskManager.perform_all]. unfold bind.
    cbn [TaskManager.perform]. unfold TaskManager.doLater.
    rewrite scoped_lock_held; [done|]. cbn. by left.
  - cbn [TaskManager.perform_all]. unfold bind.
    cbn [TaskManager.perform].
    unfold TaskManager.runWhenTasksFinished.
    rewrite scoped_lock_free.
    + unfold firing in *. simpl_state. by apply IH.
    + cbn. intros [=]%list_elem_of_singleton.
Qed.

Lemma call_quiet c dc tfc inv :
  quiet (cb_body c) = true ->
  TaskManager.call c (firing hp reg queue dc tfc inv)
  = Done tt (firing hp reg queue dc (tfc ++ registers c) (inv ++ [cb_id c])).
Proof. intros Hq. unfold TaskManager.call. by apply perform_all_quiet. Qed.

Lemma call_loud c dc tfc inv :
  quiet (cb_body c) = false ->
  exists tfc',
    TaskManager.call c (firing hp reg queue dc tfc inv)
    = Deadlock (firing hp reg queue dc tfc' (inv ++ [cb_id c])).
Proof. intros Hq. unfold TaskManager.call. by apply perform_all_loud. Qed.

End Firing.

Lemma for_each_call_unfold fuel calls i st :
  TaskManager.for_each_call fuel calls i st
  = match calls st !! i with
    | None => Done tt st
    | Some c =>
        match fuel with
        | O => OutOfFuel
        | S fuel' =>
            bind (TaskManager.call c)
              (fun _ => TaskManager.for_each_call fuel' calls (S i)) st
        end
    end.
Proof. by destruct fuel. Qed.

Section Loops.

Variables (hp : gmap nat Task) (reg queue : list nat).

(** The loop of [runDeferredCalls] over callbacks that do not call
    [doLater]: each is invoked once, in list order; the list is not
    touched. *)
Lemma deferred_loop fuel : forall i dc tfc inv,
  forallb (fun c => quiet (cb_body c)) (drop i dc) = true ->
  (length (drop i dc) <= fuel)%nat ->
  TaskManager.for_each_call fuel s_deferredCalls i
    (firing hp reg queue dc tfc inv)
  = Done tt (firing hp reg queue dc
               (tfc ++ flat_map registers (drop i dc))
               (inv ++ map cb_id (drop i dc))).
Proof.
  induction fuel as [|fuel IH]; intros i dc tfc inv Hq Hfuel;
    rewrite for_each_call_unfold; cbn [s_deferredCalls firing];
    destruct (dc !! i) as [c|] eqn:Hi.
  - rewrite (drop_S _ _ _ Hi) in Hfuel. cbn in Hfuel. lia.
  - rewrite (drop_ge dc i) by by apply lookup_ge_None.
    cbn. by rewrite !app_nil_r.
  - rewrite (drop_S _ _ _ Hi) in *. cbn in Hq, Hfuel.
    apply andb_prop in Hq as [Hc Hrest].
    unfold bind. rewrite call_quiet by done.
    rewrite IH by (done || lia).
    cbn. by rewrite <- !app_assoc.
  - rewrite (drop_ge dc i) by by apply lookup_ge_None.
    cbn. by rewrite !app_nil_r.
Qed.

(** The loop of [collectGarbage] over tame callbacks.  The list grows
    while the loop runs; [extra] is what was appended, and the loop
    invokes the callbacks of the grown list, each once, in list order. *)
Lemma finished_loop fuel : forall i dc tfc inv,
  forallb tame (drop i tfc) = true ->
  (weights (drop i tfc) <= fuel)%nat ->
  exists extra,
    extra = flat_map registers (drop i (tfc ++ extra))
    /\ TaskManager.for_each_call fuel s_tasksFinishedCallbacks i
         (firing hp reg queue dc tfc inv)
       = Done tt (firing hp reg queue dc (tfc ++ extra)
                    (inv ++ map cb_id (drop i (tfc ++ extra)))).
Proof.
  induction fuel as [|fuel IH]; intros i dc tfc inv Ht Hfuel;
    rewrite for_each_call_unfold; cbn [s_tasksFinishedCallbacks firing];
    destruct (tfc !! i) as [c|] eqn:Hi.
  - rewrite (drop_S _ _ _ Hi) in Hfuel. cbn in Hfuel.
    destruct c; cbn in Hfuel. lia.
  - exists []. rewrite !app_nil_r.
    rewrite (drop_ge tfc i) by by apply lookup_ge_None.
    cbn. by rewrite !app_nil_r.
  - pose proof (lookup_lt_Some _ _ _ Hi) as Hlen.
    rewrite (drop_S _ _ _ Hi) in *. cbn in Ht, Hfuel.
    apply andb_prop in Ht as [Hc Hrest].
    pose proof (weight_registers c) as Hw.
    destruct (IH (S i) dc (tfc ++ registers c) (inv ++ [cb_id c]))
      as (extra & Hextra & Hloop).
    { rewrite drop_app_le by lia. rewrite forallb_app, Hrest.
      by apply tame_registers. }
    { rewrite drop_app_le by lia. rewrite weights_app. lia. }
    exists (registers c ++ extra).
    assert ((tfc ++ registers c ++ extra) !! i = Some c) as Hi'
      by by apply lookup_app_l_Some.
    rewrite (drop_S _ _ _ Hi'). rewrite <- (app_assoc tfc) in Hextra, Hloop.
    split.
    + cbn. by rewrite <- Hextra.
    + unfold bind. rewrite call_quiet by by apply tame_quiet.
      rewrite Hloop. cbn. by rewrite <- !app_assoc.
  - exists []. rewrite !app_nil_r.
    rewrite (drop_ge tfc i) by by apply lookup_ge_None.
    cbn. by rewrite !app_nil_r.
Qed.

(** With enough steps the loop of [collectGarbage] ends, whatever the
    callbacks do, and leaves the task lists as they were. *)
Lemma finished_loop_ends fuel : forall i dc tfc inv,
  (weights (drop i tfc) <= fuel)%nat ->
  exists tfc' inv',
    TaskManager.for_each_call fuel s_tasksFinishedCallbacks i
      (firing hp reg queue dc tfc inv)
    = Done tt (firing hp reg queue dc tfc' inv')
    \/ TaskManager.for_each_call fuel s_tasksFinishedCallbacks i
         (firing hp reg queue dc tfc inv)
       = Deadlock (firing hp reg queue dc tfc' inv').
Proof.
  induction fuel as [|fuel IH]; intros i dc tfc inv Hfuel;
    rewrite for_each_call_unfold; cbn [s_tasksFinishedCallbacks firing];
    destruct (tfc !! i) as [c|] eqn:Hi; try by (eexists _, _; left).
  - rewrite (drop_S _ _ _ Hi) in Hfuel. cbn in Hfuel.
    destruct c; cbn in Hfuel. lia.
  - pose proof (lookup_lt_Some _ _ _ Hi) as Hlen.
    rewrite (drop_S _ _ _ Hi) in *. cbn in Hfuel.
    pose proof (weight_registers c) as Hw.
    unfold bind. destruct (quiet (cb_body c)) eqn:Hq.
    + rewrite call_quiet by done. apply IH.
      rewrite drop_app_le by lia. rewrite weights_app. lia.
    + destruct (call_loud hp reg queue c dc tfc inv Hq) as [tfc' ->].
      eexists _, _. by right.
Qed.

End Loops.

(** ** [collectGarbage] *)

Lemma collectGarbage_top fuel hp reg queue dc tfc inv :
  let st := mkState hp reg queue dc tfc [] inv in
  TaskManager.collectGarbage fuel st
  = match kept st with
    | [] =>
        match TaskManager.for_each_call fuel s_tasksFinishedCallbacks 0
                (firing hp [] queue dc tfc inv) with
        | Done _ st' =>
            Done tt (set_held (tail (held st'))
                       (set_tasksFinishedCallbacks [] st'))
        | Deadlock st' => Deadlock st'
        | OutOfFuel => OutOfFuel
        end
    | _ :: _ => Done tt (mkState hp (kept st) queue dc tfc [] inv)
    end.
Proof.
  intros st. unfold TaskManager.collectGarbage, bind.
  rewrite scoped_lock_free by (cbn; apply not_elem_of_nil).
  unfold st, kept. simpl_state.
  change (TaskManager.holds (mkState hp reg queue dc tfc [s_queueMutex] inv))
    with (TaskManager.holds (mkState hp reg queue dc tfc [] inv)).
  destruct (List.filter _ reg) as [|a reg'] eqn:Hkept; [|done].
  rewrite scoped_lock_free by (cbn; apply not_elem_of_nil).
  unfold bind. simpl_state. unfold firing.
  by destruct (TaskManager.for_each_call _ _ _ _).
Qed.

Lemma elem_of_kept st a :
  a ∈ kept st
  <-> a ∈ s_tasks st /\ TaskManager.holds st TaskManager.collectable a = false.
Proof.
  unfold kept. rewrite list_elem_of_In, filter_In, <- list_elem_of_In.
  by rewrite negb_true_iff.
Qed.

(** C5.  A maintenance pass removes a registered task exactly when the
    task is finished and has no exception: given enough steps for its
    callback loop, [collectGarbage] ends (or blocks inside a callback) in
    a state whose registry holds no address the old one did not hold, and
    an address of the old registry is missing from the new one if and only
    if its task has [isFinished] true and [hadException] false; so a task
    with [hadException] true is not removed. *)
Theorem collectGarbage_removes_finished_unfailed st fuel :
  held st = [] ->
  (weights (s_tasksFinishedCallbacks st) <= fuel)%nat ->
  exists st',
    state_of (TaskManager.collectGarbage fuel st) = Some st'
    /\ heap st' = heap st
    /\ (forall a, a ∈ s_tasks st' -> a ∈ s_tasks st)
    /\ (forall a task,
          a ∈ s_tasks st ->
          heap st !! a = Some task ->
          (a ∉ s_tasks st'
           <-> Task.isFinished task = true /\ Task.hadException task = false)
          /\ (Task.hadException task = true -> a ∈ s_tasks st')).
Proof.
  destruct st as [hp reg queue dc tfc hd inv]. cbn [held]. intros -> Hfuel.
  cbn [s_tasksFinishedCallbacks] in Hfuel.
  set (st := mkState hp reg queue dc tfc [] inv).
  assert (exists st',
            state_of (TaskManager.collectGarbage fuel st) = Some st'
            /\ heap st' = hp /\ s_tasks st' = kept st)
    as (st' & Hst' & Hheap & Hreg).
  { unfold st. rewrite collectGarbage_top. fold st.
    destruct (kept st) as [|a reg'] eqn:Hkept; [|by eexists].
    destruct (finished_loop_ends hp [] queue fuel 0 dc tfc inv)
      as (tfc' & inv' & [-> | ->]); [done | |]; by eexists. }
  exists st'. split; [done|]. split; [done|]. rewrite Hreg. split.
  - intros a Ha. by apply elem_of_kept in Ha as [Ha _].
  - intros a task Ha Htask.
    assert (TaskManager.holds st TaskManager.collectable a
            = Task.isFinished task && negb (Task.hadException task)) as Hholds.
    { unfold TaskManager.holds, TaskManager.collectable. by rewrite Htask. }
    rewrite elem_of_kept, Hholds.
    destruct (Task.isFinished task), (Task.hadException task); cbn;
      intuition congruence.
Qed.

Lemma collectGarbage_removes_finished_unfailed_witness :
  let st := ran_one 0 false [WUpdate 1] in
  exists st',
    state_of (TaskManager.collectGarbage 0 st) = Some st'
    /\ m_task first_holder ∉ s_tasks st'.
Proof.
  intros st.
  destruct (collectGarbage_removes_finished_unfailed st 0)
    as (st' & Hst' & _ & _ & Hiff).
  - reflexivity.
  - vm_compute. lia.
  - exists st'. split; [exact Hst'|].
    destruct (Hiff (m_task first_holder)
                (executed (Task.new "task" 0 false [WUpdate 1])))
      as [Hremoved _].
    + vm_compute. by left.
    + by vm_compute.
    + apply Hremoved. by vm_compute.
Defined.

(** ** Deferred calls *)

Lemma doLater_top c hp reg queue dc tfc inv :
  TaskManager.doLater c (mkState hp reg queue dc tfc [] inv)
  = Done tt (mkState hp reg queue (dc ++ [c]) tfc [] inv).
Proof.
  unfold TaskManager.doLater.
  by rewrite scoped_lock_free by (cbn; apply not_elem_of_nil).
Qed.

Lemma runWhenTasksFinished_top c hp reg queue dc tfc inv :
  TaskManager.runWhenTasksFinished c (mkState hp reg queue dc tfc [] inv)
  = Done tt (mkState hp reg queue dc (tfc ++ [c]) [] inv).
Proof.
  unfold TaskManager.runWhenTasksFinished.
  by rewrite scoped_lock_free by (cbn; apply not_elem_of_nil).
Qed.

Lemma runDeferredCalls_top fuel hp reg queue dc tfc inv :
  TaskManager.runDeferredCalls fuel (mkState hp reg queue dc tfc [] inv)
  = match TaskManager.for_each_call fuel s_deferredCalls 0
            (firing hp reg queue dc tfc inv) with
    | Done _ st' =>
        Done tt (set_held (tail (held st')) (set_deferredCalls [] st'))
    | Deadlock st' => Deadlock st'
    | OutOfFuel => OutOfFuel
    end.
Proof.
  unfold TaskManager.runDeferredCalls.
  rewrite scoped_lock_free by (cbn; apply not_elem_of_nil).
  unfold bind. simpl_state. unfold firing.
  by destruct (TaskManager.for_each_call _ _ _ _).
Qed.

Lemma runDeferredCalls_quiet fuel hp reg queue dc tfc inv :
  forallb (fun c => quiet (cb_body c)) dc = true ->
  (length dc <= fuel)%nat ->
  TaskManager.runDeferredCalls fuel (mkState hp reg queue dc tfc [] inv)
  = Done tt (mkState hp reg queue [] (tfc ++ flat_map registers dc) []
               (inv ++ map cb_id dc)).
Proof.
  intros Hq Hfuel. rewrite runDeferredCalls_top.
  by rewrite (deferred_loop hp reg queue fuel 0 dc tfc inv).
Qed.

(** C2, as stated, fails: a pass over a queue holding a callback that calls
    [doLater] never ends, with any step bound.  [runDeferredCalls] still
    holds [s_deferredCallsMutex] when it invokes the callback, and
    [doLater] locks that mutex again. *)
Lemma rescheduling_callback_blocks :
  let st := after (TaskManager.doLater rescheduling initial) in
  s_deferredCalls st = [rescheduling]
  /\ held st = []
  /\ (forall fuel st', TaskManager.runDeferredCalls fuel st <> Done tt st')
  /\ (exists st', TaskManager.runDeferredCalls 1 st = Deadlock st'
                  /\ invoked st' = [1%nat]
                  /\ s_deferredCalls st' = [rescheduling])
  /\ ~ spec_deferred_pass st.
Proof.
  cbv zeta.
  assert (forall fuel st',
            TaskManager.runDeferredCalls fuel
              (after (TaskManager.doLater rescheduling initial))
            <> Done tt st') as Hblocks.
  { intros [|fuel] st'; by vm_compute. }
  split; [done|]. split; [done|]. split; [exact Hblocks|]. split.
  - eexists. split; [vm_compute; reflexivity|]. by vm_compute.
  - intros (fuel & st' & Hdone & _). by eapply Hblocks.
Qed.

Lemma exec_ops_quiet ops : forall hp reg queue dc tfc inv,
  forallb (fun c => quiet (cb_body c)) dc = true ->
  forallb (fun c => quiet (cb_body c)) (submitted ops) = true ->
  exists tfc' inv',
    exec_ops ops (mkState hp reg queue dc tfc [] inv)
    = Done tt (mkState hp reg queue (pending_after ops dc) tfc' [] inv')
    /\ inv' ++ map cb_id (pending_after ops dc)
       = inv ++ map cb_id (dc ++ submitted ops).
Proof.
  induction ops as [|[c|] ops IH]; intros hp reg queue dc tfc inv Hdc Hops.
  - exists tfc, inv. by rewrite app_nil_r.
  - cbn in Hops. apply andb_prop in Hops as [Hc Hops].
    destruct (IH hp reg queue (dc ++ [c]) tfc inv)
      as (tfc' & inv' & Hrun & Hinv).
    { rewrite forallb_app, Hdc. cbn. by rewrite Hc. }
    { done. }
    exists tfc', inv'. cbn [exec_ops pending_after submitted]. unfold bind.
    rewrite doLater_top. split; [done|].
    by rewrite Hinv, <- app_assoc.
  - destruct (IH hp reg queue [] (tfc ++ flat_map registers dc)
                (inv ++ map cb_id dc)) as (tfc' & inv' & Hrun & Hinv);
      [done..|].
    exists tfc', inv'. cbn [exec_ops pending_after submitted]. unfold bind.
    cbn [s_deferredCalls]. rewrite runDeferredCalls_quiet by done.
    split; [done|].
    rewrite Hinv. cbn [app]. by rewrite map_app, app_assoc.
Qed.

(** C2, amended.  With the manager at rest and over callbacks that do not
    themselves call [doLater]: every sequence of [doLater] and
    [runDeferredCalls] calls runs to its end; the callbacks invoked by its
    passes, followed by those still queued, are the callbacks of the
    initial queue followed by those submitted, each once and in submission
    order; and the callbacks still queued are those submitted since the
    last pass.  So a pass invokes each callback scheduled before it exactly
    once, in submission order, and a callback scheduled after a pass is
    invoked by the next one. *)
Theorem runDeferredCalls_runs_queue_in_order st ops :
  held st = [] ->
  forallb (fun c => quiet (cb_body c)) (s_deferredCalls st) = true ->
  forallb (fun c => quiet (cb_body c)) (submitted ops) = true ->
  exists st',
    exec_ops ops st = Done tt st'
    /\ held st' = []
    /\ s_deferredCalls st' = pending_after ops (s_deferredCalls st)
    /\ invoked st' ++ map cb_id (s_deferredCalls st')
       = invoked st ++ map cb_id (s_deferredCalls st ++ submitted ops)
    /\ (forall fuel,
          (length (s_deferredCalls st') <= fuel)%nat ->
          exists st'',
            TaskManager.runDeferredCalls fuel st' = Done tt st''
            /\ s_deferredCalls st'' = []
            /\ invoked st''
               = invoked st ++ map cb_id (s_deferredCalls st ++ submitted ops)).
Proof.
  destruct st as [hp reg queue dc tfc hd inv]. cbn [held s_deferredCalls].
  intros -> Hdc Hops.
  destruct (exec_ops_quiet ops hp reg queue dc tfc inv Hdc Hops)
    as (tfc' & inv' & Hrun & Hinv).
  eexists. split; [exact Hrun|].
  cbn [held s_deferredCalls invoked].
  split; [done|]. split; [done|]. split; [done|].
  intros fuel Hfuel. eexists. split.
  - apply runDeferredCalls_quiet; [|done].
    clear -Hdc Hops. revert dc Hdc Hops.
    induction ops as [|[c|] ops IH]; intros dc Hdc Hops; cbn in *.
    + done.
    + apply andb_prop in Hops as [Hc Hops]. apply IH; [|done].
      rewrite forallb_app, Hdc. cbn. by rewrite Hc.
    + by apply IH.
  - by cbn.
Qed.

Lemma runDeferredCalls_runs_queue_in_order_witness :
  exists st',
    exec_ops [Schedule (Callback 7 []); Schedule (Callback 8 []); RunDeferred;
              Schedule (Callback 9 [])] initial
    = Done tt st'
    /\ invoked st' = [7%nat; 8%nat]
    /\ s_deferredCalls st' = [Callback 9 []].
Proof.
  destruct (runDeferredCalls_runs_queue_in_order initial
              [Schedule (Callback 7 []); Schedule (Callback 8 []);
               RunDeferred; Schedule (Callback 9 [])])
    as (st' & Hrun & _ & Hdc & Hinv & _).
  - reflexivity.
  - reflexivity.
  - reflexivity.
  - exists st'. split; [exact Hrun|]. split; [|exact Hdc].
    rewrite Hdc in Hinv. cbn in Hinv.
    change [7%nat; 8%nat; 9%nat] with ([7%nat; 8%nat] ++ [9%nat]) in Hinv.
    by apply app_inv_tail in Hinv.
Defined.

(** ** Completion callbacks *)

Lemma collectGarbage_gate fuel hp reg queue dc tfc inv :
  let st := mkState hp reg queue dc tfc [] inv in
  kept st <> [] ->
  TaskManager.collectGarbage fuel st
  = Done tt (mkState hp (kept st) queue dc tfc [] inv).
Proof.
  intros st Hkept. unfold st. rewrite collectGarbage_top. fold st.
  by destruct (kept st).
Qed.

Lemma collectGarbage_fires fuel hp reg queue dc tfc inv :
  let st := mkState hp reg queue dc tfc [] inv in
  kept st = [] ->
  forallb tame tfc = true ->
  (weights tfc <= fuel)%nat ->
  exists fired,
    fired = tfc ++ flat_map registers fired
    /\ TaskManager.collectGarbage fuel st
       = Done tt (mkState hp [] queue dc [] [] (inv ++ map cb_id fired)).
Proof.
  intros st Hkept Htame Hfuel. unfold st. rewrite collectGarbage_top.
  fold st. rewrite Hkept.
  destruct (finished_loop hp [] queue fuel 0 dc tfc inv)
    as (extra & Hextra & ->); [done | done |].
  exists (tfc ++ extra). split; [|done].
  by rewrite Hextra at 1.
Qed.

(** C6.  The code at a manager with an empty registry and two completion
    callbacks registered, the first of which calls [doLater].  The claim
    has the pass invoke both, each once, and clear the queue.  The pass
    invokes the first and never ends, with any step bound: it is blocked
    inside that callback, the second callback is not invoked and the queue
    is not cleared.  [collectGarbage] locks [s_deferredCallsMutex] around
    the completion callbacks, the mutex of the deferred calls, which
    [doLater] then locks again; the list of completion callbacks has its
    own mutex, [s_tasksFinishedMutex], which [runWhenTasksFinished] takes
    and [collectGarbage] does not. *)
Theorem completion_callback_blocks_on_doLater :
  let st := after (TaskManager.runWhenTasksFinished (Callback 3 [])
                     (after (TaskManager.runWhenTasksFinished deferring
                               initial))) in
  s_tasks st = []
  /\ s_tasksFinishedCallbacks st = [deferring; Callback 3 []]
  /\ held st = []
  /\ (forall fuel st', TaskManager.collectGarbage fuel st <> Done tt st')
  /\ (exists st', TaskManager.collectGarbage 2 st = Deadlock st'
                  /\ held st' = [s_deferredCallsMutex]
                  /\ invoked st' = [1%nat]
                  /\ s_tasksFinishedCallbacks st'
                     = [deferring; Callback 3 []]).
Proof.
  cbv zeta. split; [done|]. split; [done|]. split; [done|]. split.
  - intros [|fuel] st'; by vm_compute.
  - eexists. split; [vm_compute; reflexivity|]. by vm_compute.
Qed.

Lemma weights_flat_map_registers l :
  l <> [] -> (weights (flat_map registers l) < weights l)%nat.
Proof.
  induction l as [|c l IH]; [done|]. intros _.
  cbn. rewrite weights_app.
  pose proof (weight_registers c).
  destruct l as [|c' l]; [cbn; lia|].
  assert (c' :: l <> []) as Hne by done.
  specialize (IH Hne). lia.
Qed.

(** When the callbacks of the queue register nothing, the callbacks fired
    are those of the queue. *)
Lemma fired_without_registrations tfc fired :
  fired = tfc ++ flat_map registers fired ->
  Forall (fun c => registers c = []) tfc ->
  fired = tfc.
Proof.
  intros Hfired Hnone.
  assert (flat_map registers tfc = []) as Htfc.
  { clear Hfired. induction tfc as [|c l IH]; [done|].
    apply Forall_cons in Hnone as [Hc Hl].
    change (registers c ++ flat_map registers l = []).
    by rewrite Hc, IH. }
  set (extra := flat_map registers fired) in *.
  assert (extra = flat_map registers extra) as Hextra.
  { unfold extra at 1. rewrite Hfired.
    by rewrite flat_map_app, Htfc. }
  destruct (decide (extra = [])) as [-> | Hne].
  - by rewrite app_nil_r in Hfired.
  - pose proof (weights_flat_map_registers extra Hne) as Hlt.
    rewrite <- Hextra in Hlt. lia.
Qed.

(** The pass away from [doLater].  With the manager at rest, a maintenance
    pass that leaves the registry non-empty invokes no completion callback
    and leaves their queue as it is, whatever the callbacks are and
    whatever the step bound.  A pass that leaves the registry empty, over
    completion callbacks none of which calls [doLater] (nor registers one
    that does), given enough steps, invokes the callbacks of the queue,
    each once and in registration order, and clears the queue; the loop
    walks the list itself, so it also reaches what the callbacks append
    meanwhile.  Callbacks are finite here: one that registers itself again
    at every invocation has no counterpart among them. *)
Lemma completion_callbacks_fire_once_when_empty st :
  held st = [] ->
  (kept st <> [] ->
   forall fuel,
   exists st',
     TaskManager.collectGarbage fuel st = Done tt st'
     /\ s_tasks st' = kept st
     /\ invoked st' = invoked st
     /\ s_tasksFinishedCallbacks st' = s_tasksFinishedCallbacks st)
  /\ (kept st = [] ->
      forallb tame (s_tasksFinishedCallbacks st) = true ->
      forall fuel,
      (weights (s_tasksFinishedCallbacks st) <= fuel)%nat ->
      exists fired st',
        fired = s_tasksFinishedCallbacks st ++ flat_map registers fired
        /\ (Forall (fun c => registers c = []) (s_tasksFinishedCallbacks st)
            -> fired = s_tasksFinishedCallbacks st)
        /\ TaskManager.collectGarbage fuel st = Done tt st'
        /\ s_tasks st' = []
        /\ invoked st' = invoked st ++ map cb_id fired
        /\ s_tasksFinishedCallbacks st' = []
        /\ held st' = []).
Proof.
  destruct st as [hp reg queue dc tfc hd inv].
  cbn [held s_tasksFinishedCallbacks]. intros ->. split.
  - intros Hkept fuel. eexists.
    split; [by apply collectGarbage_gate|]. done.
  - intros Hkept Htame fuel Hfuel.
    destruct (collectGarbage_fires fuel hp reg queue dc tfc inv)
      as (fired & Hfired & Hrun); [done..|].
    eexists fired, _. split; [done|].
    split; [by apply fired_without_registrations|].
    split; [exact Hrun|]. done.
Qed.

(** * Further properties of the code *)

(** ** What the member functions of [Task] never do *)

Lemma apply_calls_app t calls1 calls2 :
  apply_calls t (calls1 ++ calls2) = apply_calls (apply_calls t calls1) calls2.
Proof. unfold apply_calls. apply foldl_app. Qed.

Lemma apply_calls_cons t c calls :
  apply_calls t (c :: calls) = apply_calls (apply_call t c) calls.
Proof. reflexivity. Qed.




Lemma apply_call_public t c :
  public c = true ->
  Task.isFinished (apply_call t c) = Task.isFinished t
  /\ Task.wasInterrupted (apply_call t c) = Task.wasInterrupted t
  /\ Task.getExceptionMessage (apply_call t c) = Task.getExceptionMessage t
  /\ (Task.hadException t = false ->
      Task.hadException (apply_call t c) = false).
Proof. destruct c; cbn; rewrite ?update_state; by repeat split. Qed.

(** X2.  The public member functions of [Task] cannot give a task a
    terminal status: through any sequence of calls of [update],
    [setMaxValue], [interrupt], [setInterruptCallback] and
    [clearException], the finished flag, the interrupted flag and the
    exception message stay as they were, and a task without an exception
    stays without one.  Only the worker loop, through the private
    [finish], [interruption] and [exception], marks a task finished,
    interrupted or failed. *)
Theorem public_calls_set_no_terminal_status calls : forall t,
  forallb public calls = true ->
  Task.isFinished (apply_calls t calls) = Task.isFinished t
  /\ Task.wasInterrupted (apply_calls t calls) = Task.wasInterrupted t
  /\ Task.getExceptionMessage (apply_calls t calls)
     = Task.getExceptionMessage t
  /\ (Task.hadException t = false ->
      Task.hadException (apply_calls t calls) = false).
Proof.
  induction calls as [|c calls IH]; intros t Hpub; [by repeat split|].
  cbn in Hpub. apply andb_prop in Hpub as [Hc Hpub].
  destruct (apply_call_public t c Hc) as (Hf & Hi & Hm & He).
  destruct (IH (apply_call t c) Hpub) as (Hf' & Hi' & Hm' & He').
  rewrite !apply_calls_cons. repeat split; [congruence.. | auto].
Qed.

Lemma public_calls_set_no_terminal_status_witness :
  let t := Task.new "scan" 5 false [] in
  let calls := [CInterrupt; CUpdate 3; CSetInterruptCallback (Some 1%nat);
                CClearException; CSetMaxValue 9] in
  Task.isFinished (apply_calls t calls) = false
  /\ Task.wasInterrupted (apply_calls t calls) = false
  /\ Task.hadException (apply_calls t calls) = false.
Proof.
  intros t calls.
  destruct (public_calls_set_no_terminal_status calls t)
    as (Hf & Hi & _ & He).
  - reflexivity.
  - split; [rewrite Hf; reflexivity|].
    split; [rewrite Hi; reflexivity|].
    apply He. reflexivity.
Defined.

Lemma apply_call_callback t c :
  (forall callback, c <> CSetInterruptCallback callback) ->
  m_interruptCallback (apply_call t c) = m_interruptCallback t.
Proof.
  intros Hc. destruct c as [| | |set| | | |]; cbn; rewrite ?update_state;
    try done.
  by destruct (Hc set).
Qed.

Lemma apply_calls_callback calls : forall t,
  (forall callback, CSetInterruptCallback callback ∉ calls) ->
  m_interruptCallback (apply_calls t calls) = m_interruptCallback t.
Proof.
  induction calls as [|c calls IH]; intros t Hnone; [done|].
  rewrite apply_calls_cons, IH.
  - apply apply_call_callback. intros callback ->.
    apply (Hnone callback). by left.
  - intros callback Hin. apply (Hnone callback). by right.
Qed.

(** X3.  [interrupt] requests the interruption and invokes the interrupt
    callback set last.  [setInterruptCallback] overwrites the callback and
    no other member function touches it: after any sequence of calls,
    [interrupt] invokes the argument of the last [setInterruptCallback] of
    the sequence, and nothing when that argument is an empty function; when
    the sequence has no [setInterruptCallback], it invokes the callback the
    task had before, if any. *)
Theorem interrupt_invokes_last_callback t :
  (forall before (callback : option hook) after,
     (forall other, CSetInterruptCallback other ∉ after) ->
     Task.interrupt
       (apply_calls t (before ++ CSetInterruptCallback callback :: after))
     = (set_shouldInterrupt true
          (apply_calls t (before ++ CSetInterruptCallback callback :: after)),
        callback))
  /\ (forall calls,
        (forall other, CSetInterruptCallback other ∉ calls) ->
        snd (Task.interrupt (apply_calls t calls)) = m_interruptCallback t).
Proof.
  split.
  - intros before callback after Hnone. unfold Task.interrupt. f_equal.
    rewrite apply_calls_app, apply_calls_cons.
    cbn [m_interruptCallback set_shouldInterrupt].
    by rewrite apply_calls_callback.
  - intros calls Hnone. cbn. by apply apply_calls_callback.
Qed.

Lemma interrupt_invokes_last_callback_witness :
  snd (Task.interrupt
         (apply_calls (Task.new "scan" 5 false [])
            ([CSetInterruptCallback (Some 4%nat); CUpdate 1]
             ++ CSetInterruptCallback (Some 6%nat)
                :: [CUpdate 2; CClearException])))
  = Some 6%nat
  /\ snd (Task.interrupt
            (apply_calls (Task.new "scan" 5 false [])
               ([CSetInterruptCallback (Some 4%nat)]
                ++ CSetInterruptCallback None :: [CUpdate 2])))
     = None.
Proof.
  destruct (interrupt_invokes_last_callback (Task.new "scan" 5 false []))
    as [Hlast _].
  split.
  - rewrite (Hlast [CSetInterruptCallback (Some 4%nat); CUpdate 1]
               (Some 6%nat) [CUpdate 2; CClearException]).
    + reflexivity.
    + intros other Hin.
      repeat (apply elem_of_cons in Hin as [Hin | Hin]; [discriminate Hin|]).
      by apply elem_of_nil in Hin.
  - rewrite (Hlast [CSetInterruptCallback (Some 4%nat)] None [CUpdate 2]).
    + reflexivity.
    + intros other Hin.
      repeat (apply elem_of_cons in Hin as [Hin | Hin]; [discriminate Hin|]).
      by apply elem_of_nil in Hin.
Defined.

(** ** Progress stays in range *)

(** X4.  [getProgress] always returns a [u32] value; and when the current
    value does not exceed the ceiling and [current * 100] fits in [u64],
    the result is at most 100, and exactly 100 once the current value has
    reached a non-zero ceiling. *)
Theorem getProgress_is_a_percentage st h :
  0 <= TaskHolder.getProgress st h < 2 ^ 32
  /\ (forall task,
        TaskHolder.lock st h = Some task ->
        0 <= Task.getValue task <= Task.getMaxValue task ->
        Task.getValue task * 100 < 2 ^ 64 ->
        TaskHolder.getProgress st h <= 100
        /\ (0 < Task.getMaxValue task ->
            Task.getValue task = Task.getMaxValue task ->
            TaskHolder.getProgress st h = 100)).
Proof.
  unfold TaskHolder.getProgress. split.
  - destruct (TaskHolder.lock st h) as [task|]; [|lia].
    destruct (Task.getMaxValue task =? 0); [lia|].
    unfold to_u32. apply Z.mod_pos_bound. lia.
  - intros task -> Hval Hprod.
    destruct (Task.getMaxValue task =? 0) eqn:Hmax; [split; lia|].
    apply Z.eqb_neq in Hmax.
    unfold to_u64, to_u32.
    rewrite (Z.mod_small (Task.getValue task * 100)) by lia.
    assert (0 <= Task.getValue task * 100 / Task.getMaxValue task <= 100)
      as Hq.
    { split; [apply Z.div_pos; lia|].
      apply Z.div_le_upper_bound; lia. }
    rewrite Z.mod_small by lia. split; [lia|].
    intros Hpos ->. rewrite Z.mul_comm. apply Z.div_mul. lia.
Qed.

Lemma getProgress_is_a_percentage_witness :
  let st := ran_one 10 false [WUpdate 3; WUpdate 10] in
  TaskHolder.getProgress st first_holder = 100.
Proof.
  intros st.
  destruct (getProgress_is_a_percentage st first_holder) as [_ Hpct].
  destruct (Hpct (executed (Task.new "task" 10 false
                              [WUpdate 3; WUpdate 10]))) as [_ Hfull];
    [by vm_compute.. | ].
  apply Hfull; by vm_compute.
Defined.

(** ** Cooperative cancellation *)

Lemma step_calm op t :
  calm op = true ->
  snd (step op t) = Ok tt
  /\ Task.getValue (fst (step op t)) = Task.getValue t
  /\ (Task.shouldInterrupt t = true ->
      Task.shouldInterrupt (fst (step op t)) = true).
Proof. destruct op; cbn; try discriminate; by repeat split. Qed.

Lemma run_app_calm pre : forall rest t,
  forallb calm pre = true ->
  exists seen t',
    run pre t = (seen, t', Ok tt)
    /\ Task.getValue t' = Task.getValue t
    /\ (Task.shouldInterrupt t = true -> Task.shouldInterrupt t' = true)
    /\ run (pre ++ rest) t
       = (seen ++ (run rest t').1.1, (run rest t').1.2, (run rest t').2).
Proof.
  induction pre as [|op pre IH]; intros rest t Hcalm.
  - exists [], t. cbn. split; [done|]. split; [done|]. split; [done|].
    by destruct (run rest t) as [[? ?] ?].
  - cbn in Hcalm. apply andb_prop in Hcalm as [Hop Hpre].
    destruct (step_calm op t Hop) as (Hok & Hval & Hint).
    destruct (step op t) as [t1 r1] eqn:Hstep. cbn in Hok, Hval, Hint.
    subst r1.
    destruct (IH rest t1 Hpre) as (seen & t' & Hrun & Hval' & Hint' & Happ).
    exists (t1 :: seen), t'. cbn. rewrite Hstep, Hrun, Happ.
    split; [done|]. split; [congruence|]. split; [auto | done].
Qed.

(** A work function run on a task whose interruption is requested stops at
    its first call of [update]; one that never calls [update] runs to its
    end. *)
Lemma executed_interrupted t pre value post :
  m_function t = pre ++ WUpdate value :: post ->
  forallb calm pre = true ->
  Task.shouldInterrupt t = true ->
  Task.isFinished (executed t) = true
  /\ Task.wasInterrupted (executed t) = true
  /\ Task.getValue (executed t) = value
  /\ Task.hadException (executed t) = Task.hadException (fst (run pre t)).2.
Proof.
  intros Hf Hcalm Hint. unfold executed. rewrite Hf.
  destruct (run_app_calm pre (WUpdate value :: post) t Hcalm)
    as (seen & t' & Hrun & _ & Hint' & ->).
  rewrite run_interrupted_value by auto.
  rewrite Hrun. by cbn.
Qed.

Lemma executed_calm t :
  forallb calm (m_function t) = true ->
  Task.isFinished (executed t) = true
  /\ Task.wasInterrupted (executed t) = Task.wasInterrupted t
  /\ Task.getValue (executed t) = Task.getValue t
  /\ (Task.hadException t = false -> Task.hadException (executed t) = false).
Proof.
  intros Hcalm. unfold executed.
  destruct (run_app_calm (m_function t) [] t Hcalm)
    as (seen & t' & Hrun & Hval & _ & _).
  destruct (run_same_status _ _ _ _ _ Hrun) as [(Hi & _ & He) _].
  rewrite Hrun. cbn. by repeat split.
Qed.

(** X5.  Cancellation is cooperative.  A task is created on a manager with
    an empty queue and interrupted through its holder before a worker takes
    it.  If its work function calls [update] before it throws or returns,
    the first such call ends it: the task finishes interrupted, without an
    exception, with the argument of that call as its progress.  If the work
    function never calls [update] and does not throw, the interruption
    request has no effect: the task finishes neither interrupted nor
    failed. *)
Theorem interrupt_takes_effect_at_first_update st name maxValue background
    function :
  held st = [] ->
  s_taskQueue st = [] ->
  exists h st1 st3 task,
    TaskManager.createTask name maxValue background function st = Done h st1
    /\ TaskManager.worker_iteration (TaskHolder.interrupt st1 h).1
       = Done tt st3
    /\ TaskHolder.lock st3 h = Some task
    /\ Task.isFinished task = true
    /\ (forall pre value post,
          function = pre ++ WUpdate value :: post ->
          forallb calm pre = true ->
          Task.wasInterrupted task = true
          /\ Task.hadException task = false
          /\ Task.getValue task = value)
    /\ (forallb calm function = true ->
        Task.wasInterrupted task = false
        /\ Task.hadException task = false).
Proof.
  destruct st as [hp reg queue dc tfc hd inv]. cbn [held s_taskQueue].
  intros -> ->.
  set (a := fresh (dom hp)).
  set (t0 := fst (Task.interrupt (Task.new name maxValue background function))).
  assert (a ∈ (reg ++ [a]) ++ [] ++ [a]) as Hin.
  { rewrite !elem_of_app. left. right. by left. }
  eexists _, _, _, (executed t0).
  split; [apply createTask_top|]. fold a.
  assert ((TaskHolder.interrupt
             (mkState
                (<[a := Task.new name maxValue background function]> hp)
                (reg ++ [a]) ([] ++ [a]) dc tfc [] inv) (mkTaskHolder a)).1
          = mkState (<[a := t0]>
                       (<[a := Task.new name maxValue background function]>
                          hp))
              (reg ++ [a]) [a] dc tfc [] inv) as ->.
  { unfold TaskHolder.interrupt, TaskHolder.lock.
    cbn [m_task s_tasks s_taskQueue heap].
    rewrite bool_decide_eq_true_2 by done.
    by rewrite lookup_insert_eq. }
  split; [apply worker_iteration_top, lookup_insert_eq|].
  split.
  { unfold TaskHolder.lock. cbn [m_task s_tasks s_taskQueue heap].
    rewrite bool_decide_eq_true_2.
    - apply lookup_insert_eq.
    - rewrite !elem_of_app. left. right. by left. }
  assert (pending t0) as Hp by apply interrupt_pending, new_pending.
  split; [|split].
  - unfold executed. by destruct (run (m_function t0) t0) as [[? ?] ?].
  - intros pre value post -> Hcalm.
    destruct (executed_interrupted t0 pre value post) as (_ & Hi & Hv & He);
      [done..|].
    split; [done|]. split; [|done].
    rewrite He.
    destruct (run pre t0) as [[seen t'] r] eqn:Hrun.
    destruct (run_same_status _ _ _ _ _ Hrun) as [(_ & _ & Hsame) _].
    apply Hsame. apply Hp.
  - intros Hcalm.
    destruct (executed_calm t0) as (_ & Hi & _ & He); [done|].
    split; [rewrite Hi; apply Hp | apply He, Hp].
Qed.

Lemma interrupt_takes_effect_at_first_update_witness :
  exists h st1 st3 task,
    TaskManager.createTask "scan" 8 false
      [WSetMaxValue 20; WUpdate 1; WUpdate 2] initial = Done h st1
    /\ TaskManager.worker_iteration (TaskHolder.interrupt st1 h).1
       = Done tt st3
    /\ TaskHolder.lock st3 h = Some task
    /\ Task.wasInterrupted task = true
    /\ Task.getValue task = 1.
Proof.
  destruct (interrupt_takes_effect_at_first_update initial "scan" 8 false
              [WSetMaxValue 20; WUpdate 1; WUpdate 2])
    as (h & st1 & st3 & task & Hc & Hw & Hl & _ & Hstop & _).
  - reflexivity.
  - reflexivity.
  - exists h, st1, st3, task.
    destruct (Hstop [WSetMaxValue 20] 1 [WUpdate 2]) as (Hi & _ & Hv).
    + reflexivity.
    + reflexivity.
    + by repeat split.
Defined.

(** ** Tasks run in submission order *)

Lemma insert_as_alter {A : Type} (f : A -> A) (m : gmap nat A) a x :
  m !! a = Some x -> <[a := f x]> m = alter f a m.
Proof.
  intros Hx. apply map_eq. intros i.
  rewrite lookup_insert, lookup_alter.
  case_decide; [subst; by rewrite Hx | done].
Qed.

Lemma alter_missing {A : Type} (f : A -> A) (m : gmap nat A) a :
  m !! a = None -> alter f a m = m.
Proof.
  intros Hx. apply map_eq. intros i. rewrite lookup_alter.
  case_decide; [subst; by rewrite Hx | done].
Qed.

Lemma worker_iteration_alter hp reg a queue dc tfc inv :
  TaskManager.worker_iteration (mkState hp reg (a :: queue) dc tfc [] inv)
  = Done tt (mkState (alter executed a hp) reg queue dc tfc [] inv).
Proof.
  destruct (hp !! a) as [task|] eqn:Htask.
  - rewrite (worker_iteration_top _ _ _ _ _ _ _ task) by done.
    by rewrite (insert_as_alter executed hp a task).
  - unfold TaskManager.worker_iteration, bind.
    rewrite scoped_lock_free by (cbn; apply not_elem_of_nil).
    simpl_state. rewrite Htask. by rewrite alter_missing.
Qed.

Lemma worker_iteration_idle hp reg dc tfc inv :
  TaskManager.worker_iteration (mkState hp reg [] dc tfc [] inv)
  = Done tt (mkState hp reg [] dc tfc [] inv).
Proof.
  unfold TaskManager.worker_iteration, bind.
  by rewrite scoped_lock_free by (cbn; apply not_elem_of_nil).
Qed.

Lemma worker_iterations_top n : forall hp reg queue dc tfc inv,
  worker_iterations n (mkState hp reg queue dc tfc [] inv)
  = Done tt (mkState
               (foldl (fun m a => alter executed a m) hp (take n queue))
               reg (drop n queue) dc tfc [] inv).
Proof.
  induction n as [|n IH]; intros hp reg queue dc tfc inv.
  - by rewrite drop_0.
  - cbn [worker_iterations]. unfold bind. destruct queue as [|a queue].
    + rewrite worker_iteration_idle, IH. by rewrite take_nil, drop_nil.
    + by rewrite worker_iteration_alter, IH.
Qed.

Lemma lookup_foldl_alter_notin {A : Type} (f : A -> A) (l : list nat) :
  forall (m : gmap nat A) a,
    a ∉ l -> foldl (fun m a => alter f a m) m l !! a = m !! a.
Proof.
  induction l as [|b l IH]; intros m a Hnot; [done|].
  cbn. rewrite IH by (intros Hin; apply Hnot; by right).
  apply lookup_alter_ne. intros ->. apply Hnot. by left.
Qed.

Lemma lookup_foldl_alter_in {A : Type} (f : A -> A) (l : list nat) :
  forall (m : gmap nat A) a,
    NoDup l -> a ∈ l ->
    foldl (fun m a => alter f a m) m l !! a = f <$> m !! a.
Proof.
  induction l as [|b l IH]; intros m a Hnd Hin.
  - by apply elem_of_nil in Hin.
  - apply NoDup_cons in Hnd as [Hb Hnd]. cbn.
    destruct (decide (a = b)) as [-> | Hne].
    + rewrite lookup_foldl_alter_notin by done. apply lookup_alter_eq.
    + apply elem_of_cons in Hin as [-> | Hin]; [done|].
      rewrite IH by done. by rewrite lookup_alter_ne.
Qed.

(** X6.  Tasks are dispatched first in, first out.  [createTask] puts the
    new task at the back of the queue.  [n] rounds of the worker loop on a
    manager at rest take the first [n] queued tasks and leave the rest
    queued in the same order; when no task is queued twice, each of the
    first [n] has been run exactly once and every other task object is
    untouched.  A round on an empty queue changes nothing. *)
Theorem workers_run_tasks_in_submission_order st n :
  held st = [] ->
  (forall name maxValue background function,
     exists h st1,
       TaskManager.createTask name maxValue background function st
       = Done h st1
       /\ s_taskQueue st1 = s_taskQueue st ++ [m_task h]
       /\ s_tasks st1 = s_tasks st ++ [m_task h])
  /\ exists st',
       worker_iterations n st = Done tt st'
       /\ s_taskQueue st' = drop n (s_taskQueue st)
       /\ s_tasks st' = s_tasks st
       /\ (s_taskQueue st = [] -> st' = st)
       /\ (NoDup (s_taskQueue st) ->
           forall a,
             heap st' !! a
             = if bool_decide (a ∈ take n (s_taskQueue st))
               then executed <$> heap st !! a
               else heap st !! a).
Proof.
  destruct st as [hp reg queue dc tfc hd inv].
  cbn [held s_taskQueue s_tasks heap]. intros ->. split.
  - intros name maxValue background function. eexists _, _.
    split; [apply createTask_top|]. done.
  - eexists. split; [apply worker_iterations_top|].
    cbn [s_taskQueue s_tasks heap].
    split; [done|]. split; [done|]. split.
    + intros ->. by rewrite take_nil, drop_nil.
    + intros Hnd a. case_bool_decide as Hin.
      * apply lookup_foldl_alter_in; [|done].
        rewrite <- (take_drop n queue) in Hnd.
        by apply NoDup_app in Hnd as [Hnd _].
      * by apply lookup_foldl_alter_notin.
Qed.

Lemma workers_run_tasks_in_submission_order_witness :
  let st :=
    after (TaskManager.createTask "second" 0 false [WThrow "late"]
             (after (TaskManager.createTask "first" 4 false [WUpdate 4]
                       initial))) in
  exists st',
    worker_iterations 1 st = Done tt st'
    /\ s_taskQueue st' = [1%nat]
    /\ (Task.isFinished <$> heap st' !! 0%nat) = Some true
    /\ (Task.isFinished <$> heap st' !! 1%nat) = Some false.
Proof.
  intros st.
  destruct (workers_run_tasks_in_submission_order st 1)
    as (_ & st' & Hrun & Hq & _ & _ & Hheap).
  - reflexivity.
  - exists st'. split; [exact Hrun|]. split; [exact Hq|].
    assert (NoDup (s_taskQueue st)) as Hnd.
    { apply (bool_decide_eq_true_1 (NoDup (s_taskQueue st))).
      by vm_compute. }
    rewrite !Hheap by exact Hnd.
    by vm_compute.
Defined.

(** ** The shape of the manager between two calls *)

Section Shapes.

Variables (hp : gmap nat Task) (reg queue : list nat).

Lemma call_firing c dc tfc inv :
  exists tfc' inv',
    TaskManager.call c (firing hp reg queue dc tfc inv)
    = Done tt (firing hp reg queue dc tfc' inv')
    \/ TaskManager.call c (firing hp reg queue dc tfc inv)
       = Deadlock (firing hp reg queue dc tfc' inv').
Proof.
  destruct (quiet (cb_body c)) eqn:Hq.
  - eexists _, _. left. by apply call_quiet.
  - destruct (call_loud hp reg queue c dc tfc inv Hq) as [tfc' ->].
    eexists _, _. by right.
Qed.

(** Whatever the callbacks do, a loop over them leaves the tasks, the two
    task lists and the deferred queue alone, and returns with
    [s_deferredCallsMutex] still the one mutex held. *)
Lemma for_each_call_firing fuel calls : forall i dc tfc inv,
  TaskManager.for_each_call fuel calls i (firing hp reg queue dc tfc inv)
  = OutOfFuel
  \/ exists tfc' inv',
       TaskManager.for_each_call fuel calls i (firing hp reg queue dc tfc inv)
       = Done tt (firing hp reg queue dc tfc' inv')
       \/ TaskManager.for_each_call fuel calls i
            (firing hp reg queue dc tfc inv)
          = Deadlock (firing hp reg queue dc tfc' inv').
Proof.
  induction fuel as [|fuel IH]; intros i dc tfc inv;
    rewrite for_each_call_unfold;
    destruct (calls (firing hp reg queue dc tfc inv) !! i) as [c|];
    try (by left); try (right; eexists _, _; by left).
  unfold bind.
  destruct (call_firing c dc tfc inv) as (tfc' & inv' & [-> | ->]).
  - apply IH.
  - right. eexists _, _. by right.
Qed.

End Shapes.

Lemma collectGarbage_done fuel hp reg queue dc tfc inv st' :
  let st := mkState hp reg queue dc tfc [] inv in
  TaskManager.collectGarbage fuel st = Done tt st' ->
  exists tfc' inv',
    st' = mkState hp (kept st) queue dc tfc' [] inv'
    /\ (kept st = [] -> tfc' = [])
    /\ (kept st <> [] -> tfc' = tfc /\ inv' = inv).
Proof.
  intros st. unfold st. rewrite collectGarbage_top. fold st.
  destruct (kept st) as [|a reg'] eqn:Hkept.
  - destruct (for_each_call_firing hp [] queue fuel s_tasksFinishedCallbacks
                0 dc tfc inv) as [-> | (tfc' & inv' & [-> | ->])];
      [done | | done].
    intros [= <-]. by eexists _, _.
  - intros [= <-]. by eexists _, _.
Qed.

Lemma runDeferredCalls_done fuel hp reg queue dc tfc inv st' :
  TaskManager.runDeferredCalls fuel (mkState hp reg queue dc tfc [] inv)
  = Done tt st' ->
  exists tfc' inv', st' = mkState hp reg queue [] tfc' [] inv'.
Proof.
  rewrite runDeferredCalls_top.
  destruct (for_each_call_firing hp reg queue fuel s_deferredCalls
              0 dc tfc inv) as [-> | (tfc' & inv' & [-> | ->])];
    [done | | done].
  intros [= <-]. by eexists _, _.
Qed.

Lemma NoDup_kept st : NoDup (s_tasks st) -> NoDup (kept st).
Proof.
  unfold kept. induction (s_tasks st) as [|a l IH]; [done|].
  intros [Ha Hl]%NoDup_cons. cbn.
  destruct (negb _); [|by apply IH].
  apply NoDup_cons. split; [|by apply IH].
  rewrite list_elem_of_In, filter_In, <- list_elem_of_In. by intros [? _].
Qed.

Lemma interrupt_all_heap l : forall hp a,
  (TaskManager.interrupt_all l hp).1 !! a
  = (if bool_decide (a ∈ l) then set_shouldInterrupt true else id)
    <$> hp !! a.
Proof.
  induction l as [|b l IH]; intros hp a.
  - cbn. by destruct (hp !! a).
  - cbn [TaskManager.interrupt_all].
    destruct (hp !! b) as [task|] eqn:Hb.
    + unfold Task.interrupt.
      destruct (TaskManager.interrupt_all l _) as [hp' calls] eqn:Hrest.
      cbn [fst]. replace hp' with (hp', calls).1 by done.
      rewrite <- Hrest, IH.
      destruct (decide (a = b)) as [-> | Hne].
      * rewrite lookup_insert_eq, Hb.
        rewrite (bool_decide_eq_true_2 (b ∈ b :: l)) by by left.
        case_bool_decide; by cbn.
      * rewrite lookup_insert_ne by done.
        destruct (hp !! a); [|done]. cbn. f_equal.
        repeat case_bool_decide; try done.
        -- exfalso. match goal with H : ¬ _ |- _ => apply H end. by right.
        -- exfalso. match goal with H : _ ∈ _ :: _ |- _ =>
                      apply elem_of_cons in H as [? | ?] end; done.
    + rewrite IH. destruct (decide (a = b)) as [-> | Hne].
      * by rewrite Hb.
      * destruct (hp !! a); [|done]. cbn. f_equal.
        repeat case_bool_decide; try done.
        -- exfalso. match goal with H : ¬ _ |- _ => apply H end. by right.
        -- exfalso. match goal with H : _ ∈ _ :: _ |- _ =>
                      apply elem_of_cons in H as [? | ?] end; done.
Qed.

Lemma initial_at_rest : at_rest initial.
Proof.
  unfold at_rest, registry_live. cbn.
  split; [done|]. split; [apply NoDup_nil_2|]. split; [apply NoDup_nil_2|].
  split; [by intros a ?%elem_of_nil|].
  split; [by intros a ?%elem_of_nil|].
  by intros a task ?%elem_of_nil.
Qed.

Lemma pending_public_call task c :
  public c = true -> pending task -> pending (apply_call task c).
Proof.
  intros Hc (Hf & Hi & He).
  destruct (apply_call_public task c Hc) as (Hf' & Hi' & _ & He').
  unfold Task.isFinished, Task.wasInterrupted, Task.hadException in *.
  repeat split; [congruence | congruence | auto].
Qed.

Lemma pending_unfinished task :
  pending task -> TaskManager.collectable task = false.
Proof.
  intros (Hf & _). unfold TaskManager.collectable, Task.isFinished.
  by rewrite Hf.
Qed.

Lemma at_rest_intro hp reg queue dc tfc inv :
  NoDup reg ->
  NoDup queue ->
  (forall a, a ∈ queue -> a ∈ reg) ->
  (forall a, a ∈ reg -> is_Some (hp !! a)) ->
  (forall a task, a ∈ queue -> hp !! a = Some task -> pending task) ->
  at_rest (mkState hp reg queue dc tfc [] inv).
Proof.
  intros. unfold at_rest, registry_live. cbn.
  split; [done|]. split; [done|]. split; [done|]. split; [done|]. by split.
Qed.

Lemma perform_op_at_rest op st st' :
  at_rest st -> perform_op op st = Done tt st' -> at_rest st'.
Proof.
  destruct st as [hp reg queue dc tfc hd inv].
  intros (Hheld & Hreg & Hqueue & Hsub & Hlive & Hpend).
  unfold registry_live in *.
  cbn [held s_tasks s_taskQueue heap] in *. subst hd.
  destruct op as [name maxValue background function| |fuel|c|c|fuel|h|a c|];
    cbn [perform_op].
  - (* createTask *)
    unfold bind. rewrite createTask_top. cbn [ret].
    intros [= <-]. unfold at_rest, registry_live.
    cbn [held s_tasks s_taskQueue heap].
    set (a := fresh (dom hp)).
    assert (hp !! a = None) as Hfresh
      by (apply not_elem_of_dom; apply is_fresh).
    assert (a ∉ reg) as Hareg.
    { intros Hin. destruct (Hlive a Hin) as [task Htask]. congruence. }
    assert (a ∉ queue) as Haq by (intros Hin; by apply Hareg, Hsub).
    split; [done|]. split.
    { apply NoDup_app. split; [done|]. split; [|apply NoDup_singleton].
      intros x Hx ->%list_elem_of_singleton. done. }
    split.
    { apply NoDup_app. split; [done|]. split; [|apply NoDup_singleton].
      intros x Hx ->%list_elem_of_singleton. done. }
    split.
    { intros x [Hx | Hx]%elem_of_app; apply elem_of_app;
        [left; by apply Hsub | by right]. }
    split.
    { intros x [Hx | ->%list_elem_of_singleton]%elem_of_app.
      - rewrite lookup_insert_ne by (intros ->; done). by apply Hlive.
      - rewrite lookup_insert_eq. by eexists. }
    intros x task [Hx | ->%list_elem_of_singleton]%elem_of_app.
    + rewrite lookup_insert_ne by (intros ->; done). by apply Hpend.
    + rewrite lookup_insert_eq. intros [= <-]. apply new_pending.
  - (* worker *)
    destruct queue as [|a queue].
    + rewrite worker_iteration_idle. intros [= <-]. by apply at_rest_intro.
    + rewrite worker_iteration_alter. intros [= <-].
      apply NoDup_cons in Hqueue as [Ha Hqueue].
      unfold at_rest, registry_live. cbn [held s_tasks s_taskQueue heap].
      split; [done|]. split; [done|]. split; [done|]. split.
      { intros x Hx. apply Hsub. by right. }
      split.
      { intros x Hx. rewrite lookup_alter.
        case_decide; [subst; apply fmap_is_Some|]; by apply Hlive. }
      intros x task Hx. rewrite lookup_alter_ne by (intros ->; done).
      apply Hpend. by right.
  - (* collectGarbage *)
    intros Hdone.
    apply collectGarbage_done in Hdone as (tfc' & inv' & -> & _).
    set (st := mkState hp reg queue dc tfc [] inv) in *.
    unfold at_rest, registry_live. cbn [held s_tasks s_taskQueue heap].
    split; [done|]. split; [by apply NoDup_kept|]. split; [done|]. split.
    { intros x Hx. apply elem_of_kept. split; [by apply Hsub|].
      destruct (Hlive x (Hsub x Hx)) as [task Htask].
      unfold TaskManager.holds. cbn [heap st]. rewrite Htask.
      apply pending_unfinished. by eapply Hpend. }
    split; [|done].
    intros x Hx. apply Hlive. by apply elem_of_kept in Hx as [Hx _].
  - (* doLater *)
    rewrite doLater_top. intros [= <-]. by apply at_rest_intro.
  - (* runWhenTasksFinished *)
    rewrite runWhenTasksFinished_top. intros [= <-]. by apply at_rest_intro.
  - (* runDeferredCalls *)
    intros Hdone. apply runDeferredCalls_done in Hdone as (tfc' & inv' & ->).
    by apply at_rest_intro.
  - (* TaskHolder::interrupt *)
    intros [= <-]. unfold TaskHolder.interrupt, TaskHolder.lock.
    cbn [s_tasks s_taskQueue heap].
    case_bool_decide; [|by apply at_rest_intro].
    destruct (hp !! m_task h) as [task|] eqn:Htask; [|by apply at_rest_intro].
    unfold at_rest, registry_live. cbn [fst]. simpl_state.
    split; [done|]. split; [done|]. split; [done|]. split; [done|]. split.
    { intros x Hx. rewrite lookup_insert.
      case_decide; [by eexists | by apply Hlive]. }
    intros x task' Hx. rewrite lookup_insert.
    case_decide as Heq; [|by apply Hpend].
    intros [= <-]. subst x. apply interrupt_pending. by eapply Hpend.
  - (* a public member function through the registry *)
    intros [= <-]. destruct (public c) eqn:Hc; [|by apply at_rest_intro].
    unfold call_on_task. case_bool_decide; [|by apply at_rest_intro].
    unfold at_rest, registry_live. simpl_state.
    split; [done|]. split; [done|]. split; [done|]. split; [done|]. split.
    { intros x Hx. rewrite lookup_alter.
      case_decide; [subst; apply fmap_is_Some|]; by apply Hlive. }
    intros x task' Hx. rewrite lookup_alter.
    case_decide as Heq; [subst x|by apply Hpend].
    destruct (hp !! a) as [task|] eqn:Htask; [|done].
    intros [= <-]. apply pending_public_call; [done|]. by eapply Hpend.
  - (* exit *)
    intros [= <-]. unfold TaskManager.exit.
    cbn [s_tasks s_taskQueue heap].
    destruct (TaskManager.interrupt_all reg hp) as [hp' calls].
    unfold at_rest, registry_live. cbn.
    split; [done|]. split; [apply NoDup_nil_2|]. split; [apply NoDup_nil_2|].
    split; [by intros x ?%elem_of_nil|].
    split; [by intros x ?%elem_of_nil|].
    by intros x task ?%elem_of_nil.
Qed.

(** X7.  The manager keeps its shape.  From a manager at rest, and from the
    initial one in particular, every sequence of calls that returns
    ([createTask], rounds of the worker loop, [collectGarbage], [doLater],
    [runWhenTasksFinished], [runDeferredCalls], [TaskHolder::interrupt],
    public member functions on registered tasks, [exit], with callbacks of
    any kind) leaves a manager at rest: no mutex is left locked, no task is
    registered or queued twice, every queued task is still registered, is a
    live object and has not been finished, interrupted or failed: a worker
    never takes a task that is already finished, and a task waiting in the
    queue is never collected. *)
Theorem manager_stays_at_rest ops : forall st st',
  at_rest st ->
  perform_ops ops st = Done tt st' ->
  at_rest st'
  /\ (forall a,
        a ∈ s_taskQueue st' ->
        exists task,
          TaskHolder.lock st' (mkTaskHolder a) = Some task /\ pending task).
Proof.
  assert (forall st st',
            at_rest st -> perform_ops ops st = Done tt st' -> at_rest st')
    as Hkeeps.
  { induction ops as [|op ops IH]; intros st st' Hst.
    - by intros [= <-].
    - cbn [perform_ops]. unfold bind.
      destruct (perform_op op st) as [[] st1| |] eqn:Hop; [|done..].
      intros Hrest. eapply IH; [|done]. by eapply perform_op_at_rest. }
  intros st st' Hst Hrun. specialize (Hkeeps st st' Hst Hrun).
  split; [done|].
  destruct Hkeeps as (_ & _ & _ & Hsub & Hlive & Hpend).
  intros a Ha. destruct (Hlive a (Hsub a Ha)) as [task Htask].
  exists task. split; [|by eapply Hpend].
  unfold TaskHolder.lock. cbn [m_task].
  rewrite bool_decide_eq_true_2; [done|].
  apply elem_of_app. right. done.
Qed.

Lemma manager_stays_at_rest_witness :
  exists st',
    perform_ops
      [OpCreateTask "first" 4 false [WUpdate 4];
       OpCreateTask "second" 0 true [WThrow "late"];
       OpHolderInterrupt (mkTaskHolder 1);
       OpWorker;
       OpRunWhenTasksFinished (Callback 5 []);
       OpCollectGarbage 1] initial
    = Done tt st'
    /\ at_rest st'
    /\ s_taskQueue st' = [1%nat].
Proof.
  destruct (perform_ops
              [OpCreateTask "first" 4 false [WUpdate 4];
               OpCreateTask "second" 0 true [WThrow "late"];
               OpHolderInterrupt (mkTaskHolder 1);
               OpWorker;
               OpRunWhenTasksFinished (Callback 5 []);
               OpCollectGarbage 1] initial) as [[] st'| |] eqn:Hrun;
    [|by vm_compute in Hrun..].
  exists st'. split; [reflexivity|]. split.
  - apply (manager_stays_at_rest _ initial st' initial_at_rest Hrun).
  - vm_compute in Hrun. by injection Hrun as <-.
Defined.

(** ** Maintenance passes *)

Lemma filter_again {A : Type} (p : A -> bool) (l : list A) :
  List.filter p (List.filter p l) = List.filter p l.
Proof.
  induction l as [|x l IH]; [done|].
  cbn. destruct (p x) eqn:Hx; [|done].
  cbn. by rewrite Hx, IH.
Qed.

Lemma kept_again hp reg queue dc tfc inv queue' dc' tfc' hd' inv' :
  let st := mkState hp reg queue dc tfc [] inv in
  kept (mkState hp (kept st) queue' dc' tfc' hd' inv') = kept st.
Proof.
  intros st. unfold kept, st. cbn [s_tasks].
  change (TaskManager.holds (mkState hp _ queue' dc' tfc' hd' inv'))
    with (TaskManager.holds (mkState hp reg queue dc tfc [] inv)).
  apply filter_again.
Qed.

(** X8.  A maintenance pass is idempotent: when [collectGarbage] has
    returned, a second pass made right after it, with any step bound,
    returns with the state unchanged; it removes no further task and
    invokes no callback. *)
Theorem collectGarbage_twice_is_once st fuel st' :
  held st = [] ->
  TaskManager.collectGarbage fuel st = Done tt st' ->
  forall fuel2, TaskManager.collectGarbage fuel2 st' = Done tt st'.
Proof.
  destruct st as [hp reg queue dc tfc hd inv]. cbn [held]. intros -> Hdone.
  apply collectGarbage_done in Hdone as (tfc' & inv' & -> & Hempty & Hsome).
  set (st := mkState hp reg queue dc tfc [] inv) in *.
  intros fuel2. rewrite collectGarbage_top. cbv zeta.
  unfold st at 1 2. rewrite kept_again. fold st.
  destruct (kept st) as [|a reg'] eqn:Hkept; [|done].
  rewrite (Hempty eq_refl).
  rewrite for_each_call_unfold. by cbn.
Qed.

Lemma collectGarbage_twice_is_once_witness :
  let st := after (TaskManager.runWhenTasksFinished (Callback 5 [])
                     (ran_one 0 false [WThrow "boom"])) in
  TaskManager.collectGarbage 7 (after (TaskManager.collectGarbage 1 st))
  = Done tt (after (TaskManager.collectGarbage 1 st)).
Proof.
  intros st.
  apply (collectGarbage_twice_is_once st 1).
  - reflexivity.
  - by vm_compute.
Defined.

Lemma collectGarbage_state fuel hp reg queue dc tfc inv st' :
  let st := mkState hp reg queue dc tfc [] inv in
  state_of (TaskManager.collectGarbage fuel st) = Some st' ->
  heap st' = hp /\ s_tasks st' = kept st /\ s_taskQueue st' = queue.
Proof.
  intros st. unfold st. rewrite collectGarbage_top. fold st.
  destruct (kept st) as [|a reg'] eqn:Hkept.
  - destruct (for_each_call_firing hp [] queue fuel s_tasksFinishedCallbacks
                0 dc tfc inv) as [-> | (tfc' & inv' & [-> | ->])];
      [done | |]; by intros [= <-].
  - by intros [= <-].
Qed.

(** X9.  What a maintenance pass does to a finished task that no longer
    sits in the queue.  If the task had an exception it stays registered
    and its holder stays alive, with the task as the worker left it; if
    not, it is removed and its holder is dead.  Once [clearException] has
    been called on a finished task through the registry, the next pass
    removes it whether or not it had failed.  This holds for every pass
    that ends, even one that blocks inside a completion callback. *)
Theorem failed_task_is_kept_until_cleared st a task :
  held st = [] ->
  a ∈ s_tasks st ->
  a ∉ s_taskQueue st ->
  heap st !! a = Some task ->
  Task.isFinished task = true ->
  (forall fuel st',
     state_of (TaskManager.collectGarbage fuel st) = Some st' ->
     TaskHolder.lock st' (mkTaskHolder a)
     = if Task.hadException task then Some task else None)
  /\ (forall fuel st',
        state_of (TaskManager.collectGarbage fuel
                    (call_on_task a CClearException st)) = Some st' ->
        (a ∉ s_tasks st')
        /\ TaskHolder.lock st' (mkTaskHolder a) = None).
Proof.
  destruct st as [hp reg queue dc tfc hd inv].
  cbn [held s_tasks s_taskQueue heap]. intros -> Hreg Hqueue Htask Hfin.
  split.
  - intros fuel st' Hst'.
    apply collectGarbage_state in Hst' as (Hhp & Hkept & Hq).
    unfold TaskHolder.lock. cbn [m_task]. rewrite Hhp, Hkept, Hq, Htask.
    assert (TaskManager.holds (mkState hp reg queue dc tfc [] inv)
              TaskManager.collectable a
            = negb (Task.hadException task)) as Hholds.
    { unfold TaskManager.holds, TaskManager.collectable. cbn [heap].
      by rewrite Htask, Hfin. }
    destruct (Task.hadException task); cbn in Hholds.
    + rewrite bool_decide_eq_true_2; [done|].
      apply elem_of_app. left. by apply elem_of_kept.
    + rewrite bool_decide_eq_false_2; [done|].
      intros [Hin | Hin]%elem_of_app; [|done].
      apply elem_of_kept in Hin as [_ Hin]. congruence.
  - intros fuel st'. unfold call_on_task, TaskManager.getRunningTasks.
    cbn [s_tasks]. rewrite bool_decide_eq_true_2 by done.
    simpl_state. intros Hst'.
    apply collectGarbage_state in Hst' as (Hhp & Hkept & Hq).
    assert (a ∉ s_tasks st') as Hgone.
    { rewrite Hkept. intros [_ Hin]%elem_of_kept. revert Hin.
      unfold TaskManager.holds, TaskManager.collectable. cbn [heap].
      rewrite lookup_alter_eq, Htask. cbn.
      unfold Task.isFinished in Hfin. by rewrite Hfin. }
    split; [done|].
    unfold TaskHolder.lock. cbn [m_task].
    rewrite bool_decide_eq_false_2; [done|].
    rewrite Hq. by intros [Hin | Hin]%elem_of_app.
Qed.

Lemma failed_task_is_kept_until_cleared_witness :
  let st := ran_one 0 false [WThrow "boom"] in
  (exists task,
     TaskHolder.lock (after (TaskManager.collectGarbage 0 st)) first_holder
     = Some task
     /\ Task.getExceptionMessage task = "boom"%string)
  /\ TaskHolder.lock
       (after (TaskManager.collectGarbage 0
                 (call_on_task 0 CClearException st))) first_holder = None.
Proof.
  intros st.
  destruct (failed_task_is_kept_until_cleared st 0%nat
              (executed (Task.new "task" 0 false [WThrow "boom"])))
    as [Hkept Hcleared].
  - reflexivity.
  - vm_compute. by left.
  - vm_compute. by intros ?%elem_of_nil.
  - by vm_compute.
  - reflexivity.
  - split.
    + eexists. split.
      * apply (Hkept 0%nat). by vm_compute.
      * reflexivity.
    + apply (Hcleared 0%nat). by vm_compute.
Defined.

(** ** Counts through the life of a task *)

Lemma step_keeps_background op t :
  Task.isBackgroundTask (fst (step op t)) = Task.isBackgroundTask t.
Proof. destruct op; cbn; rewrite ?update_state; done. Qed.

Lemma run_keeps_background ops : forall t,
  Task.isBackgroundTask (run ops t).1.2 = Task.isBackgroundTask t.
Proof.
  induction ops as [|op ops IH]; intros t; [done|].
  cbn. pose proof (step_keeps_background op t) as Hstep.
  destruct (step op t) as [t' [[]|e]]; cbn in Hstep; [|done].
  specialize (IH t'). destruct (run ops t') as [[seen t''] r].
  cbn in *. congruence.
Qed.

Lemma executed_keeps_background t :
  Task.isBackgroundTask (executed t) = Task.isBackgroundTask t.
Proof.
  unfold executed. pose proof (run_keeps_background (m_function t) t) as Hrun.
  destruct (run (m_function t) t) as [[seen t1] r]. cbn in Hrun.
  rewrite <- Hrun. by destruct r as [|[]].
Qed.

Lemma count_if_worker p hp reg a queue dc tfc inv hd queue' :
  (forall task, p (executed task) = p task) ->
  TaskManager.count_if p (mkState (alter executed a hp) reg queue' dc tfc hd inv)
  = TaskManager.count_if p (mkState hp reg queue dc tfc hd inv).
Proof.
  intros Hp. unfold TaskManager.count_if. cbn [s_tasks]. f_equal.
  apply filter_ext_in. intros x _. unfold TaskManager.holds. cbn [heap].
  rewrite lookup_alter. case_decide; [subst|done].
  destruct (hp !! x); cbn; [apply Hp | done].
Qed.

Lemma count_if_create p hp reg a task queue dc tfc inv hd queue' :
  a ∉ reg ->
  TaskManager.count_if p
    (mkState (<[a := task]> hp) (reg ++ [a]) queue' dc tfc hd inv)
  = (TaskManager.count_if p (mkState hp reg queue dc tfc hd inv)
     + if p task then 1 else 0)%nat.
Proof.
  intros Ha. unfold TaskManager.count_if. cbn [s_tasks].
  rewrite List.filter_app, length_app. f_equal.
  - f_equal. apply filter_ext_in. intros x Hx.
    unfold TaskManager.holds. cbn [heap].
    rewrite lookup_insert_ne; [done|]. by intros ->.
  - cbn. unfold TaskManager.holds. cbn [heap]. rewrite lookup_insert_eq.
    by destruct (p task).
Qed.

Lemma getRunningTaskCount_top hp reg queue dc tfc inv :
  let st := mkState hp reg queue dc tfc [] inv in
  TaskManager.getRunningTaskCount st
  = Done (TaskManager.count_if
            (fun task => negb (Task.isBackgroundTask task)) st) st
  /\ TaskManager.getRunningBackgroundTaskCount st
     = Done (TaskManager.count_if Task.isBackgroundTask st) st.
Proof.
  intros st.
  unfold TaskManager.getRunningTaskCount,
    TaskManager.getRunningBackgroundTaskCount.
  by rewrite !scoped_lock_free by (cbn; apply not_elem_of_nil).
Qed.

(** X10.  How the two counts move.  On a manager at rest, [createTask]
    raises the count of its kind by one (the running count for a
    foreground task, the background count for a background task) and leaves
    the other as it is; a round of the worker loop changes neither count,
    although the task it ran is now finished: a count only goes down in
    [collectGarbage]. *)
Theorem counts_change_at_submission_only st :
  at_rest st ->
  exists running background : nat,
    TaskManager.getRunningTaskCount st = Done running st
    /\ TaskManager.getRunningBackgroundTaskCount st = Done background st
    /\ (forall name maxValue is_background function,
          exists h st1,
            TaskManager.createTask name maxValue is_background function st
            = Done h st1
            /\ TaskManager.getRunningTaskCount st1
               = Done (running + if is_background then 0 else 1)%nat st1
            /\ TaskManager.getRunningBackgroundTaskCount st1
               = Done (background + if is_background then 1 else 0)%nat st1)
    /\ exists st',
         TaskManager.worker_iteration st = Done tt st'
         /\ TaskManager.getRunningTaskCount st' = Done running st'
         /\ TaskManager.getRunningBackgroundTaskCount st' = Done background st'.
Proof.
  destruct st as [hp reg queue dc tfc hd inv].
  intros (Hheld & _ & _ & _ & Hlive & _). unfold registry_live in Hlive.
  cbn [held s_tasks heap] in *. subst hd.
  destruct (getRunningTaskCount_top hp reg queue dc tfc inv) as [Hr Hb].
  eexists _, _. split; [exact Hr|]. split; [exact Hb|]. split.
  - intros name maxValue is_background function. eexists _, _.
    split; [apply createTask_top|].
    assert (fresh (dom hp) ∉ reg) as Hfresh.
    { intros Hin. destruct (Hlive _ Hin) as [task Htask].
      assert (hp !! fresh (dom hp) = None) as Hnone
        by (apply not_elem_of_dom; apply is_fresh).
      congruence. }
    destruct (getRunningTaskCount_top
                (<[fresh (dom hp) :=
                     Task.new name maxValue is_background function]> hp)
                (reg ++ [fresh (dom hp)]) (queue ++ [fresh (dom hp)])
                dc tfc inv) as [-> ->].
    rewrite !(count_if_create _ hp reg _ _ queue) by done.
    cbn [Task.isBackgroundTask Task.new m_background].
    by destruct is_background.
  - destruct queue as [|a queue].
    + eexists. split; [apply worker_iteration_idle|]. by split.
    + eexists. split; [apply worker_iteration_alter|].
      destruct (getRunningTaskCount_top (alter executed a hp) reg queue
                  dc tfc inv) as [-> ->].
      rewrite !(count_if_worker _ hp reg a (a :: queue)); [done|..];
        intros task; by rewrite executed_keeps_background.
Qed.

Lemma counts_change_at_submission_only_witness :
  let st := after (TaskManager.createTask "first" 4 false [WUpdate 4] initial) in
  exists st',
    TaskManager.worker_iteration st = Done tt st'
    /\ TaskManager.getRunningTaskCount st' = Done 1%nat st'
    /\ TaskHolder.isRunning st' first_holder = false.
Proof.
  intros st.
  destruct (counts_change_at_submission_only st)
    as (running & background & Hr & _ & _ & st' & Hw & Hr' & _).
  - apply (perform_op_at_rest (OpCreateTask "first" 4 false [WUpdate 4])
             initial st initial_at_rest). reflexivity.
  - exists st'. split; [exact Hw|].
    assert (running = 1%nat) as -> by (vm_compute in Hr; congruence).
    split; [exact Hr'|].
    vm_compute in Hw. injection Hw as <-. reflexivity.
Defined.

(** ** Interruption through a holder *)

(** X11.  [TaskHolder::interrupt] on a holder whose task is gone changes
    nothing and invokes nothing.  On a live holder it sets the interruption
    request of that task and invokes the task's interrupt callback, if one
    is set; what the callback itself does aside, nothing else changes: the
    task is otherwise as it was, every holder of another task sees what it
    saw before, and no list of the manager changes.  A second call leaves
    the state the first call left and invokes the callback again. *)
Theorem holder_interrupt_sets_flag_and_calls_back st h :
  (TaskHolder.lock st h = None -> TaskHolder.interrupt st h = (st, None))
  /\ (forall task,
        TaskHolder.lock st h = Some task ->
        (TaskHolder.interrupt st h).2 = m_interruptCallback task
        /\ TaskHolder.lock (TaskHolder.interrupt st h).1 h
           = Some (set_shouldInterrupt true task)
        /\ TaskHolder.interrupt (TaskHolder.interrupt st h).1 h
           = ((TaskHolder.interrupt st h).1, m_interruptCallback task))
  /\ (forall h',
        m_task h' <> m_task h ->
        TaskHolder.lock (TaskHolder.interrupt st h).1 h'
        = TaskHolder.lock st h')
  /\ set_heap (heap st) (TaskHolder.interrupt st h).1 = st.
Proof.
  destruct st as [hp reg queue dc tfc hd inv], h as [a].
  unfold TaskHolder.interrupt.
  destruct (TaskHolder.lock _ (mkTaskHolder a)) as [task|] eqn:Hlock.
  - assert (a ∈ reg ++ queue /\ hp !! a = Some task) as [Hin Htask].
    { unfold TaskHolder.lock in Hlock. cbn [m_task s_tasks s_taskQueue heap]
        in Hlock. by case_bool_decide. }
    cbn [fst snd]. simpl_state. cbn [m_task].
    assert (TaskHolder.lock
              (mkState (<[a := (Task.interrupt task).1]> hp) reg queue dc tfc
                 hd inv) (mkTaskHolder a)
            = Some (set_shouldInterrupt true task)) as Hlock'.
    { unfold TaskHolder.lock. cbn [m_task s_tasks s_taskQueue heap].
      rewrite bool_decide_eq_true_2 by done. by rewrite lookup_insert_eq. }
    split; [done|]. split.
    { intros ? [= <-]. split; [done|]. split; [done|].
      rewrite Hlock'. cbn [fst snd]. simpl_state. f_equal.
      f_equal. by rewrite insert_insert_eq. }
    split; [|done].
    intros [a'] Hne. unfold TaskHolder.lock.
    cbn [m_task s_tasks s_taskQueue heap] in *.
    by rewrite lookup_insert_ne.
  - by repeat split.
Qed.

Lemma holder_interrupt_sets_flag_and_calls_back_witness :
  let st :=
    call_on_task 0 (CSetInterruptCallback (Some 9%nat))
      (after (TaskManager.createTask "scan" 8 false [WUpdate 1] initial)) in
  (TaskHolder.interrupt st first_holder).2 = Some 9%nat
  /\ (TaskHolder.interrupt (TaskHolder.interrupt st first_holder).1
        first_holder).2 = Some 9%nat
  /\ TaskHolder.interrupt initial first_holder = (initial, None).
Proof.
  intros st.
  destruct (holder_interrupt_sets_flag_and_calls_back st first_holder)
    as (_ & Hlive & _).
  destruct (holder_interrupt_sets_flag_and_calls_back initial first_holder)
    as (Hdead & _).
  destruct (Hlive (Task.setInterruptCallback (Some 9%nat)
                     (Task.new "scan" 8 false [WUpdate 1])))
    as (Hcalled & _ & Hagain); [reflexivity|].
  split; [exact Hcalled|]. split.
  - by rewrite Hagain.
  - apply Hdead. reflexivity.
Defined.

(** ** Shutdown *)

Lemma interrupt_all_calls l : forall hp a task c,
  a ∈ l ->
  hp !! a = Some task ->
  m_interruptCallback task = Some c ->
  c ∈ (TaskManager.interrupt_all l hp).2.
Proof.
  induction l as [|b l IH]; intros hp a task c Hin Htask Hc.
  - by apply elem_of_nil in Hin.
  - cbn [TaskManager.interrupt_all].
    destruct (decide (a = b)) as [<- | Hne].
    + rewrite Htask. unfold Task.interrupt.
      destruct (TaskManager.interrupt_all l _) as [hp' calls].
      cbn. rewrite Hc. by left.
    + apply elem_of_cons in Hin as [-> | Hin]; [done|].
      destruct (hp !! b) as [tb|]; [|by eapply IH].
      unfold Task.interrupt.
      specialize (IH (<[b := set_shouldInterrupt true tb]> hp) a task c Hin).
      destruct (TaskManager.interrupt_all l _) as [hp' calls].
      cbn in *. apply elem_of_app. right. apply IH; [|done].
      by rewrite lookup_insert_ne.
Qed.

Lemma elem_of_released l : forall others a,
  a ∈ l -> a ∉ others -> a ∈ TaskManager.released l others.
Proof.
  induction l as [|b l IH]; intros others a Hin Hnot.
  - by apply elem_of_nil in Hin.
  - cbn. case_bool_decide as Hb.
    + apply IH; [|done].
      apply elem_of_cons in Hin as [-> | Hin]; [|done].
      by apply elem_of_app in Hb as [Hb | Hb].
    + apply elem_of_cons in Hin as [-> | Hin]; [by left|].
      right. by apply IH.
Qed.

(** X12.  [exit] leaves no task behind: the registry and the work queue are
    empty and every holder is dead, so each holder reports not running and
    progress 0; the deferred calls and the completion callbacks still
    queued are kept, not run and not dropped.  On the way the interrupt
    callback of every registered task is invoked; that of a task still
    waiting in the queue is invoked a second time, by the destructor of the
    task, which interrupts a task that has not finished. *)
Theorem exit_destroys_every_task st :
  let st' := (TaskManager.exit st).1 in
  let called := (TaskManager.exit st).2 in
  s_tasks st' = []
  /\ s_taskQueue st' = []
  /\ (forall h,
        TaskHolder.lock st' h = None
        /\ TaskHolder.isRunning st' h = false
        /\ TaskHolder.getProgress st' h = 0)
  /\ s_deferredCalls st' = s_deferredCalls st
  /\ s_tasksFinishedCallbacks st' = s_tasksFinishedCallbacks st
  /\ invoked st' = invoked st
  /\ (forall a task c,
        a ∈ s_tasks st ->
        heap st !! a = Some task ->
        m_interruptCallback task = Some c ->
        c ∈ called
        /\ (a ∈ s_taskQueue st ->
            Task.isFinished task = false ->
            exists l1 l2 l3, called = l1 ++ c :: l2 ++ c :: l3)).
Proof.
  destruct st as [hp reg queue dc tfc hd inv].
  unfold TaskManager.exit. cbn [s_tasks s_taskQueue heap].
  pose proof (interrupt_all_heap reg hp) as Hheap.
  pose proof (interrupt_all_calls reg hp) as Hcalls.
  destruct (TaskManager.interrupt_all reg hp) as [hp' by_loop].
  cbn [fst snd] in *. simpl_state.
  split; [done|]. split; [done|]. split.
  { intros h.
    assert (TaskHolder.lock (mkState hp' [] [] dc tfc hd inv) h = None)
      as Hdead.
    { unfold TaskHolder.lock. cbn [s_tasks s_taskQueue app].
      rewrite bool_decide_eq_false_2; [done|]. by intros ?%elem_of_nil. }
    split; [done|].
    unfold TaskHolder.isRunning, TaskHolder.getProgress. by rewrite Hdead. }
  split; [done|]. split; [done|]. split; [done|].
  intros a task c Ha Htask Hc.
  specialize (Hcalls a task c Ha Htask Hc).
  split; [apply elem_of_app; by left|].
  intros Hq Hunfinished.
  apply list_elem_of_split in Hcalls as (l1 & l2 & ->).
  assert (c ∈ omap (fun a => match hp' !! a with
                             | Some task => Task.destroy task
                             | None => None
                             end)
                (TaskManager.released reg queue
                 ++ TaskManager.released queue [])) as Hagain.
  { apply list_elem_of_omap. exists a. split.
    - apply elem_of_app. right. apply elem_of_released; [done|].
      by intros ?%elem_of_nil.
    - rewrite Hheap, Htask, bool_decide_eq_true_2 by done. cbn.
      unfold Task.destroy, Task.isFinished in *. cbn.
      by rewrite Hunfinished. }
  apply list_elem_of_split in Hagain as (l3 & l4 & ->).
  exists l1, (l2 ++ l3), l4. by rewrite <- !app_assoc.
Qed.

Lemma exit_destroys_every_task_witness :
  let st :=
    call_on_task 0 (CSetInterruptCallback (Some 9%nat))
      (after (TaskManager.createTask "scan" 8 false [WUpdate 1] initial)) in
  (TaskManager.exit st).2 = [9%nat; 9%nat]
  /\ TaskHolder.lock (TaskManager.exit st).1 first_holder = None.
Proof.
  intros st.
  destruct (exit_destroys_every_task st)
    as (_ & _ & Hdead & _ & _ & _ & Hcalled).
  split; [|apply Hdead].
  destruct (Hcalled 0%nat
              (Task.setInterruptCallback (Some 9%nat)
                 (Task.new "scan" 8 false [WUpdate 1])) 9%nat)
    as [_ Htwice]; [by vm_compute; left | by vm_compute | reflexivity |].
  destruct Htwice as (l1 & l2 & l3 & _); [by vm_compute; left | reflexivity |].
  by vm_compute.
Defined.

(** ** Background tasks *)

Lemma step_keeps_maxValue op t :
  (forall value, op <> WSetMaxValue value) ->
  Task.getMaxValue (fst (step op t)) = Task.getMaxValue t.
Proof.
  intros Hop. destruct op as [| set | | | | |]; cbn; rewrite ?update_state;
    try done.
  by destruct (Hop set).
Qed.

Lemma run_keeps_maxValue ops : forall t,
  (forall value, WSetMaxValue value ∉ ops) ->
  Task.getMaxValue (run ops t).1.2 = Task.getMaxValue t.
Proof.
  induction ops as [|op ops IH]; intros t Hnone; [done|].
  cbn. pose proof (step_keeps_maxValue op t) as Hstep.
  destruct (step op t) as [t' [[]|e]]; cbn in Hstep.
  - specialize (IH t'). destruct (run ops t') as [[seen t''] r]. cbn in *.
    rewrite IH.
    + apply Hstep. intros value ->. apply (Hnone value). by left.
    + intros value Hin. apply (Hnone value). by right.
  - cbn. apply Hstep. intros value ->. apply (Hnone value). by left.
Qed.

Lemma executed_keeps_maxValue t :
  (forall value, WSetMaxValue value ∉ m_function t) ->
  Task.getMaxValue (executed t) = Task.getMaxValue t.
Proof.
  intros Hnone. unfold executed.
  pose proof (run_keeps_maxValue (m_function t) t Hnone) as Hrun.
  destruct (run (m_function t) t) as [[seen t1] r]. cbn in Hrun.
  rewrite <- Hrun. by destruct r as [|[]].
Qed.

(** X13.  A task made by [createBackgroundTask] on a manager with an empty
    queue has ceiling 0 and is a background task: its holder reports it
    running with progress 0; and when its work function never calls
    [setMaxValue], then after a worker has run it the holder reports it not
    running and still progress 0, whatever values the function passed to
    [update]. *)
Theorem background_task_reports_no_progress st name function :
  held st = [] ->
  s_taskQueue st = [] ->
  exists h st1 st2,
    TaskManager.createBackgroundTask name function st = Done h st1
    /\ TaskHolder.isRunning st1 h = true
    /\ TaskHolder.getProgress st1 h = 0
    /\ (exists task,
          TaskHolder.lock st1 h = Some task
          /\ Task.isBackgroundTask task = true)
    /\ TaskManager.worker_iteration st1 = Done tt st2
    /\ TaskHolder.isRunning st2 h = false
    /\ ((forall value, WSetMaxValue value ∉ function) ->
        TaskHolder.getProgress st2 h = 0).
Proof.
  destruct st as [hp reg queue dc tfc hd inv]. cbn [held s_taskQueue].
  intros -> ->.
  assert (forall a hp' queue',
            TaskHolder.lock (mkState hp' (reg ++ [a]) queue' dc tfc [] inv)
              (mkTaskHolder a) = hp' !! a)
    as Hlock.
  { intros a hp' queue'. unfold TaskHolder.lock.
    cbn [m_task s_tasks s_taskQueue heap].
    rewrite bool_decide_eq_true_2; [done|].
    rewrite !elem_of_app. left. right. by left. }
  eexists _, _, _. unfold TaskManager.createBackgroundTask.
  split; [apply createTask_top|]. cbv zeta.
  split; [unfold TaskHolder.isRunning; by rewrite Hlock, lookup_insert_eq|].
  split; [unfold TaskHolder.getProgress; by rewrite Hlock, lookup_insert_eq|].
  split; [eexists; by rewrite Hlock, lookup_insert_eq|].
  split; [apply worker_iteration_top, lookup_insert_eq|].
  unfold TaskHolder.isRunning, TaskHolder.getProgress.
  rewrite !Hlock, !lookup_insert_eq. split.
  - unfold executed.
    by destruct (run (m_function (Task.new name 0 true function)) _)
      as [[? ?] ?].
  - intros Hnone. by rewrite executed_keeps_maxValue.
Qed.

Lemma background_task_reports_no_progress_witness :
  exists h st1 st2,
    TaskManager.createBackgroundTask "index" [WUpdate 7; WUpdate 9] initial
    = Done h st1
    /\ TaskManager.worker_iteration st1 = Done tt st2
    /\ TaskHolder.getProgress st2 h = 0.
Proof.
  destruct (background_task_reports_no_progress initial "index"
              [WUpdate 7; WUpdate 9])
    as (h & st1 & st2 & Hc & _ & _ & _ & Hw & _ & Hzero).
  - reflexivity.
  - reflexivity.
  - exists h, st1, st2. split; [exact Hc|]. split; [exact Hw|].
    apply Hzero. intros value Hin.
    repeat (apply elem_of_cons in Hin as [Hin | Hin]; [discriminate Hin|]).
    by apply elem_of_nil in Hin.
Defined.

(** ** Deferred calls that call back into the manager *)

(** X14.  A deferred call may register completion callbacks:
    [runWhenTasksFinished] takes another mutex than the one the pass holds.
    A pass over deferred calls that do not call [doLater] appends the
    callbacks they register to the completion queue, in the order of the
    calls, and does not invoke them; it touches no task, neither the
    registry nor the work queue. *)
Theorem deferred_calls_may_register_completion_callbacks st fuel :
  held st = [] ->
  forallb (fun c => quiet (cb_body c)) (s_deferredCalls st) = true ->
  (length (s_deferredCalls st) <= fuel)%nat ->
  exists st',
    TaskManager.runDeferredCalls fuel st = Done tt st'
    /\ s_tasksFinishedCallbacks st'
       = s_tasksFinishedCallbacks st
         ++ flat_map registers (s_deferredCalls st)
    /\ invoked st' = invoked st ++ map cb_id (s_deferredCalls st)
    /\ heap st' = heap st
    /\ s_tasks st' = s_tasks st
    /\ s_taskQueue st' = s_taskQueue st.
Proof.
  destruct st as [hp reg queue dc tfc hd inv]. cbn [held s_deferredCalls].
  intros -> Hq Hfuel. eexists. split; [by apply runDeferredCalls_quiet|].
  by cbn.
Qed.

Lemma deferred_calls_may_register_completion_callbacks_witness :
  let st := after (TaskManager.doLater
                     (Callback 3 [CallRunWhenTasksFinished (Callback 4 [])])
                     initial) in
  exists st',
    TaskManager.runDeferredCalls 1 st = Done tt st'
    /\ s_tasksFinishedCallbacks st' = [Callback 4 []]
    /\ invoked st' = [3%nat].
Proof.
  intros st.
  destruct (deferred_calls_may_register_completion_callbacks st 1)
    as (st' & Hrun & Htfc & Hinv & _).
  - reflexivity.
  - reflexivity.
  - vm_compute. lia.
  - exists st'. split; [exact Hrun|]. split; [exact Htfc | exact Hinv].
Defined.

Lemma drop_cons_lookup {A : Type} (l : list A) i x rest :
  drop i l = x :: rest -> l !! i = Some x /\ drop (S i) l = rest.
Proof.
  revert i. induction l as [|y l IH]; intros i Hdrop.
  - by rewrite drop_nil in Hdrop.
  - destruct i as [|i]; cbn in *.
    + injection Hdrop as -> ->. split; [done|]. by rewrite drop_0.
    + by apply IH.
Qed.

Lemma deferred_loop_blocks hp reg queue before : forall fuel i dc tfc inv c after,
  drop i dc = before ++ c :: after ->
  forallb (fun c => quiet (cb_body c)) before = true ->
  quiet (cb_body c) = false ->
  (length before < fuel)%nat ->
  exists tfc',
    TaskManager.for_each_call fuel s_deferredCalls i
      (firing hp reg queue dc tfc inv)
    = Deadlock (firing hp reg queue dc tfc'
                  (inv ++ map cb_id before ++ [cb_id c])).
Proof.
  induction before as [|b before IH];
    intros fuel i dc tfc inv c after Hdrop Hq Hloud Hfuel;
    (destruct fuel as [|fuel]; [cbn in Hfuel; lia|]);
    apply drop_cons_lookup in Hdrop as [Hi Hdrop];
    rewrite for_each_call_unfold; cbn [s_deferredCalls firing];
    rewrite Hi; unfold bind.
  - destruct (call_loud hp reg queue c dc tfc inv Hloud) as [tfc' ->].
    by exists tfc'.
  - cbn in Hq, Hfuel. apply andb_prop in Hq as [Hb Hq].
    rewrite call_quiet by done.
    destruct (IH fuel (S i) dc (tfc ++ registers b) (inv ++ [cb_id b])
                c after) as [tfc' ->]; [done | done | done | lia |].
    exists tfc'. cbn. by rewrite <- !app_assoc.
Qed.

(** X15.  When a pass of [runDeferredCalls] blocks.  If some queued
    callback calls [doLater], the pass invokes the callbacks before the
    first such callback, invokes that one, and blocks inside it, with
    [s_deferredCallsMutex] locked: the callbacks queued after it are never
    invoked, the queue is not cleared, and nothing was added to it. *)
Theorem runDeferredCalls_blocks_at_first_doLater st before c rest fuel :
  held st = [] ->
  s_deferredCalls st = before ++ c :: rest ->
  forallb (fun c => quiet (cb_body c)) before = true ->
  quiet (cb_body c) = false ->
  (length before < fuel)%nat ->
  exists st',
    TaskManager.runDeferredCalls fuel st = Deadlock st'
    /\ invoked st' = invoked st ++ map cb_id before ++ [cb_id c]
    /\ s_deferredCalls st' = s_deferredCalls st
    /\ held st' = [s_deferredCallsMutex].
Proof.
  destruct st as [hp reg queue dc tfc hd inv]. cbn [held s_deferredCalls].
  intros -> Hdc Hq Hloud Hfuel.
  rewrite runDeferredCalls_top.
  destruct (deferred_loop_blocks hp reg queue before fuel 0 dc tfc inv c rest)
    as [tfc' ->]; [by rewrite drop_0 | done..|].
  eexists. split; [done|]. by cbn.
Qed.

Lemma runDeferredCalls_blocks_at_first_doLater_witness :
  let st :=
    after (TaskManager.doLater (Callback 9 [])
             (after (TaskManager.doLater rescheduling
                       (after (TaskManager.doLater (Callback 0 []) initial)))))
  in
  exists st',
    TaskManager.runDeferredCalls 2 st = Deadlock st'
    /\ invoked st' = [0%nat; 1%nat]
    /\ length (s_deferredCalls st') = 3%nat.
Proof.
  intros st.
  destruct (runDeferredCalls_blocks_at_first_doLater st [Callback 0 []]
              rescheduling [Callback 9 []] 2)
    as (st' & Hrun & Hinv & Hdc & _).
  - reflexivity.
  - reflexivity.
  - reflexivity.
  - reflexivity.
  - vm_compute. lia.
  - exists st'. split; [exact Hrun|]. split; [exact Hinv|].
    by rewrite Hdc.
Defined.
